(** * em5820: image rasterisation and ESC/POS command encoding

    A shallow embedding of the em5820 thermal-printer tools:

    - [main.cpp]: [rgb_to_gray], [dither_image] (Floyd-Steinberg error
      diffusion fused with MSB-first bit packing) and the size computation
      of [load_and_process_image];
    - [printer.hpp]: the command encoders of [em5820::Printer];
    - [print_text.cpp]: the construction of the text-format byte.

    Conventions.  C++ [int] values are modelled by [Z]; signed overflow is
    undefined in C++, so the model computes without wrap-around and is
    faithful as long as every intermediate value fits an [int].  Unsigned
    8- and 16-bit values are [Z] with the truncation written out.  C++
    [float] is IEEE-754 binary32 with round-to-nearest-even, taken from
    the Standard Library's executable specification [SpecFloat] at
    precision 24 and maximal exponent 128.  A [std::vector] is a list;
    reading or writing outside its bounds is undefined in C++ and is
    modelled as reading a default value and as a write without effect. *)

From Stdlib Require Import ZArith Lia Bool.
From Stdlib Require Import Floats.SpecFloat.
From stdpp Require Import base list.

Local Open Scope Z_scope.

(** ** binary32 arithmetic *)

Module F32.

Definition prec : Z := 24.
Definition emax : Z := 128.

Definition float : Type := spec_float.

Definition add : float -> float -> float := SFadd prec emax.
Definition sub : float -> float -> float := SFsub prec emax.
Definition mul : float -> float -> float := SFmul prec emax.
Definition div : float -> float -> float := SFdiv prec emax.

(** [a < b] and [a > b]; both are false when an operand is NaN. *)
Definition ltb (a b : float) : bool := SFltb a b.
Definition gtb (a b : float) : bool := SFltb b a.
Definition leb (a b : float) : bool := SFleb a b.

(** Conversion [int -> float] (round to nearest, ties to even). *)
Definition of_int (z : Z) : float := binary_normalize prec emax z 0 false.

(** Conversion [float -> int], [static_cast<int>]: truncation toward
    zero.  The conversion of a NaN, an infinity or a value outside the
    range of [int] is undefined in C++; the model gives 0 for the first
    two and the mathematical truncation for the last. *)
Definition to_int (f : float) : Z :=
  match f with
  | S754_finite s m e =>
      let a := match e with
               | Zneg p => Z.pos m / 2 ^ Z.pos p
               | _ => Z.pos m * 2 ^ e
               end in
      if s then - a else a
  | _ => 0
  end.

(** A decimal literal [n/d] with the [f] suffix denotes the binary32
    value nearest to the quotient; numerator and denominator are small
    enough to be exact, so one correctly rounded division yields it. *)
Definition lit (n d : Z) : float := div (of_int n) (of_int d).

Definition zero : float := S754_zero false.
Definition half : float := S754_finite false 8388608 (-24).
Definition one : float := S754_finite false 8388608 (-23).

#[global] Instance float_inhabited : Inhabited float := populate zero.

End F32.

Import F32.

(** ** Vectors and counted loops *)

(** [v[i]] on a [std::vector]. *)
Definition vget {A} `{Inhabited A} (v : list A) (i : Z) : A :=
  if i <? 0 then inhabitant else v !!! Z.to_nat i.

(** [v[i] = a]. *)
Definition vset {A} (v : list A) (i : Z) (a : A) : list A :=
  if i <? 0 then v else <[Z.to_nat i := a]> v.

(** [std::vector<T>(n, a)]. *)
Definition vfill {A} (n : Z) (a : A) : list A := replicate (Z.to_nat n) a.

(** [for (int i = lo; i < hi; i++) s = body i s]. *)
Fixpoint for_iter {S : Type} (n : nat) (i : Z) (body : Z -> S -> S) (s : S) : S :=
  match n with
  | O => s
  | Datatypes.S n' => for_iter n' (i + 1) body (body i s)
  end.

Definition for_range {S : Type} (lo hi : Z) (body : Z -> S -> S) (s : S) : S :=
  for_iter (Z.to_nat (hi - lo)) lo body s.

(** ** main.cpp: luminance *)

(** Line 17: the bytes are promoted to [int] and converted to [float];
    the sum associates to the left. *)
Definition luma (r g b : Z) : float :=
  add (add (mul (lit 299 1000) (of_int r)) (mul (lit 587 1000) (of_int g)))
      (mul (lit 114 1000) (of_int b)).

(** The base and the exponent handed to [std::pow] on line 19. *)
Definition gamma_base (r g b : Z) : float := div (luma r g b) (of_int 255).
Definition gamma_exponent : float := div one (lit 22 10).

Section luminance.
(** [std::pow] on [float] belongs to the C library: it is not one of
    the IEEE-754 basic operations and the sources do not define it. *)
Variable powf : float -> float -> float.

Definition rgb_to_gray (r g b : Z) : float :=
  powf (gamma_base r g b) gamma_exponent.
End luminance.

(** ** main.cpp: Floyd-Steinberg dithering *)

(** The objects [dither_image] works on: the caller's vector, reached
    through the [const] reference [grayscale], and the two locals
    [working_copy] and [bitmap]. *)
Record Frame : Type := mkFrame {
  grayscale : list float;
  working_copy : list float;
  bitmap : list Z
}.

(** [old_pixel > 0.5f ? 1.0f : 0.0f] *)
Definition quantize (old_pixel : float) : float :=
  if gtb old_pixel half then one else zero.

(** [v[i] += error * k / 16.0f] *)
Definition diffuse (v : list float) (i : Z) (error : float) (k : Z) : list float :=
  vset v i (add (vget v i) (div (mul error (of_int k)) (of_int 16))).

(** [bitmap[byte_idx] |= (1 << bit_idx)], stored back as [uint8_t]. *)
Definition set_bit (bm : list Z) (byte_idx bit_idx : Z) : list Z :=
  vset bm byte_idx (Z.land (Z.lor (vget bm byte_idx) (Z.shiftl 1 bit_idx)) 255).

(** The body of the inner loop, lines 34-58. *)
Definition dither_pixel (width height y x : Z) (fr : Frame) : Frame :=
  let bytes_per_row := (width + 7) ÷ 8 in
  let idx := y * width + x in
  let old_pixel := vget (working_copy fr) idx in
  let new_pixel := quantize old_pixel in
  let error := sub old_pixel new_pixel in
  let bm :=
    if ltb new_pixel half then
      let byte_idx := y * bytes_per_row + x ÷ 8 in
      let bit_idx := 7 - Z.rem x 8 in
      set_bit (bitmap fr) byte_idx bit_idx
    else bitmap fr in
  let wc1 :=
    if x + 1 <? width then diffuse (working_copy fr) (idx + 1) error 7
    else working_copy fr in
  let wc2 :=
    if y + 1 <? height then
      let wa := if 0 <? x then diffuse wc1 (idx + width - 1) error 3 else wc1 in
      let wb := diffuse wa (idx + width) error 5 in
      if x + 1 <? width then diffuse wb (idx + width + 1) error 1 else wb
    else wc1 in
  {| grayscale := grayscale fr; working_copy := wc2; bitmap := bm |}.

(** One turn of the outer loop: the whole inner loop for row [y]. *)
Definition dither_row (width height y : Z) (fr : Frame) : Frame :=
  for_range 0 width (dither_pixel width height y) fr.

(** The frame on entry to the loops: the copy and the zeroed bitmap. *)
Definition dither_init (g : list float) (width height : Z) : Frame :=
  {| grayscale := g;
     working_copy := g;
     bitmap := vfill ((width + 7) ÷ 8 * height) 0 |}.

(** The frame when [dither_image] returns. *)
Definition dither_run (g : list float) (width height : Z) : Frame :=
  for_range 0 height (dither_row width height) (dither_init g width height).

Definition dither_image (g : list float) (width height : Z) : list Z :=
  bitmap (dither_run g width height).

(** The MonoRaster the ditherer decides on: pixel [(x, y)] is black when
    the value quantized at its turn is [0.0f] (line 42).  The frame at that
    turn is the one reached after the rows before [y] and the pixels before
    [x] of row [y]. *)
Definition frame_at (g : list float) (width height y x : Z) : Frame :=
  for_range 0 x (dither_pixel width height y)
    (for_range 0 y (dither_row width height) (dither_init g width height)).

Definition black_at (g : list float) (width height x y : Z) : bool :=
  ltb (quantize (vget (working_copy (frame_at g width height y x)) (y * width + x))) half.

(** Row-major enumeration of a [width] x [height] raster. *)
Definition raster {A} (width height : Z) (f : Z -> Z -> A) : list A :=
  y ← seqZ 0 height; (λ x, f x y) <$> seqZ 0 width.

Definition dither_mono (g : list float) (width height : Z) : list bool :=
  raster width height (black_at g width height).

(** The bit of pixel [(x, y)] in a packed bitmap with [bytes_per_row]
    bytes in each row. *)
Definition packed_bit (bm : list Z) (bytes_per_row x y : Z) : bool :=
  Z.testbit (vget bm (y * bytes_per_row + x ÷ 8)) (7 - Z.rem x 8).

(** Modelled from the spec: the test-only helper that unpacks a
    PackedBitmap; it is not part of the sources.  It reads every pixel
    back from its byte and bit, with [width / 8] bytes in a row. *)
Definition unpack (bm : list Z) (width height : Z) : list bool :=
  raster width height (packed_bit bm (width ÷ 8)).

(** The spec's error for a raster that is not byte aligned.  The sources
    have no such error: [dither_image] contains no [throw] and no test of
    its dimensions, so as a fallible operation it always returns. *)
Inductive PackError : Type := InvalidDimension.

Definition pack_result (g : list float) (width height : Z) : PackError + list Z :=
  inr (dither_image g width height).

(** ** main.cpp: the size computed by [load_and_process_image] *)

(** Lines 83-94; [scale] is a [float], and the products [width * scale]
    and [height * scale] are computed in binary32 before truncation. *)
Definition image_scale (width max_width : Z) : float :=
  if max_width <? width then div (of_int max_width) (of_int width) else one.

Definition scaled_size (width height max_width : Z) : Z * Z :=
  let scale := image_scale width max_width in
  let scaled_width := to_int (mul (of_int width) scale) in
  let scaled_height := to_int (mul (of_int height) scale) in
  let scaled_width := scaled_width ÷ 8 * 8 in
  let scaled_width := if scaled_width =? 0 then 8 else scaled_width in
  (scaled_width, scaled_height).

(** ** printer.hpp: the command encoder *)

Definition u8 (z : Z) : Z := z mod 256.
Definition u16 (z : Z) : Z := z mod 65536.

Module Printer.

Inductive Alignment : Type := LEFT | CENTER | RIGHT.
Inductive BitmapMode : Type := NORMAL | WIDE | TALL | HUGE.

(** [static_cast<uint8_t>] of the scoped enumerations. *)
Definition Alignment_ordinal (a : Alignment) : Z :=
  match a with LEFT => 0 | CENTER => 1 | RIGHT => 2 end.

Definition BitmapMode_ordinal (m : BitmapMode) : Z :=
  match m with NORMAL => 0 | WIDE => 1 | TALL => 2 | HUGE => 3 end.

(** The device behind the libusb handle, as far as the encoder can
    tell: [wire] is the sequence of bytes delivered to the OUT endpoint
    so far; a bulk transfer either delivers all of its bytes or fails,
    according to [link_up]. *)
Record Device : Type := mkDevice {
  link_up : bool;
  wire : list Z
}.

(** A member function that may throw [std::runtime_error]: [None] is
    the exception. *)
Definition M (A : Type) : Type := Device -> option (A * Device).

Definition ret {A} (a : A) : M A := fun d => Some (a, d).

Definition bind {A B} (m : M A) (k : A -> M B) : M B :=
  fun d => match m d with
           | Some (a, d') => k a d'
           | None => None
           end.

Notation "'do' x <- m ; k" := (bind m (fun x => k))
  (at level 10, x name, m at level 100, k at level 200).

(** Lines 88-104.  Draining the IN endpoint leaves [wire] alone. *)
Definition write_bytes (data : list Z) : M Z :=
  fun d =>
    if link_up d
    then Some (u16 (Z.of_nat (length data)),
               {| link_up := true; wire := wire d ++ data |})
    else None.

Definition reset : M Z := write_bytes [0x1b; 0x40].

Definition set_print_text_type (print_type : Z) : M Z :=
  write_bytes [0x1b; 0x21; print_type].

Definition feed_dots (dots : Z) : M Z := write_bytes [0x1b; 0x4a; dots].

Definition feed_lines (lines : Z) : M Z := write_bytes [0x1b; 0x64; lines].

Definition set_allignment (allign : Alignment) : M Z :=
  write_bytes [0x1b; 0x61; Alignment_ordinal allign].

(** Lines 142-153; [width] and [height] are [uint16_t].  The two
    operands of [+] are taken in the order they are written. *)
Definition print_bitmap (mode : BitmapMode) (width height : Z)
    (bitmap : list Z) : M Z :=
  let width_first := Z.land (width ÷ 8) 0x00ff in
  let width_second := Z.land (Z.shiftr (width ÷ 8) 8) 0x00ff in
  let height_first := Z.land height 0x00ff in
  let height_second := Z.land (Z.shiftr height 8) 0x00ff in
  let data := [0x1d; 0x76; 0x30; BitmapMode_ordinal mode;
               width_first; width_second; height_first; height_second] in
  do a <- write_bytes data;
  do b <- write_bytes bitmap;
  ret (u16 (a + b)).

Definition enable_bold (optbit : Z) : Z := u8 (Z.lor optbit 0x08).
Definition enable_double_height (optbit : Z) : Z := u8 (Z.lor optbit 0x10).
Definition enable_double_wide (optbit : Z) : Z := u8 (Z.lor optbit 0x20).
Definition enable_underline (optbit : Z) : Z := u8 (Z.lor optbit 0x80).

(** Lines 108-111; [horizontal] and [vertical] are [uint8_t]. *)
Definition set_text_scale (horizontal vertical : Z) : M Z :=
  let scale :=
    u8 (Z.lor (Z.land vertical 0xf) (Z.shiftl (Z.land horizontal 0xf) 4)) in
  write_bytes [0x1d; 0x21; scale].

(** Lines 117-119; the string is given by its bytes. *)
Definition write_string (str : list Z) : M Z := write_bytes str.

(** Lines 127-130; [pos] is a [uint16_t]. *)
Definition set_horizontal_absolute_print_position (pos : Z) : M Z :=
  write_bytes [0x1b; 0x24; u8 pos; u8 (Z.shiftr pos 8)].

(** Lines 136-140. *)
Definition set_underline (thickness : Z) : M Z :=
  let thickness := if 2 <? thickness then 2 else thickness in
  write_bytes [0x1b; 0x2d; thickness].

Definition enable_ascii_9x17 (optbit : Z) : Z := u8 (Z.lor optbit 0x01).
Definition enable_ascii_12x24 (optbit : Z) : Z := u8 (Z.land optbit 0xFE).

End Printer.

(** ** print_text.cpp: the text style of [main], lines 106-115 *)

Definition text_format (bold underline double_width double_height : bool) : Z :=
  let format := 0 in
  let format := if bold then Printer.enable_bold format else format in
  let format := if underline then Printer.enable_underline format else format in
  let format := if double_width then Printer.enable_double_wide format else format in
  let format := if double_height then Printer.enable_double_height format else format in
  format.

Definition send_text_style (bold underline double_width double_height : bool)
    : Printer.M unit :=
  let format := text_format bold underline double_width double_height in
  if negb (format =? 0)
  then Printer.bind (Printer.set_print_text_type format) (fun _ => Printer.ret tt)
  else Printer.ret tt.

(** ** printer.hpp: opening and releasing the device *)

(** The calls into libusb, in the order they are made. *)
Inductive UsbCall : Type :=
| LibusbInit
| LibusbGetDeviceList
| LibusbGetDeviceDescriptor (i : nat)
| LibusbFreeDeviceList
| LibusbExit
| LibusbOpen (i : nat)
| LibusbClose
| LibusbKernelDriverActive
| LibusbDetachKernelDriver
| LibusbClaimInterface
| LibusbReleaseInterface.

#[global] Instance UsbCall_eq_dec : EqDecision UsbCall.
Proof. solve_decision. Defined.

(** What libusb answers: the value each call returns, and for
    [libusb_get_device_list] the vendor and product of every device, or
    [None] for a negative count. *)
Record Usb : Type := mkUsb {
  init_ret : Z;
  device_list : option (list (Z * Z));
  open_ret : Z;
  kernel_driver_active : Z;
  detach_ret : Z;
  claim_ret : Z
}.

(** The two pointers of a [Printer], each either null or not, and the
    calls made so far. *)
Record Port : Type := mkPort {
  ctx : bool;
  dev_handle : bool;
  calls : list UsbCall
}.

(** [Printer() = default]. *)
Definition new_port : Port := {| ctx := false; dev_handle := false; calls := [] |}.

(** The [std::runtime_error]s of [open_usb], by their place. *)
Inductive OpenError : Type :=
| InitFailed
| DeviceListFailed
| DeviceNotFound
| OpenFailed
| DetachFailed
| ClaimFailed.

Definition USB_VENDOR : Z := 10473.
Definition USB_PRODUCT : Z := 649.

(** Lines 190-201, and with the same body the destructor, lines 17-28. *)
Definition cleanup (p : Port) : Port :=
  let p1 :=
    if dev_handle p
    then {| ctx := ctx p; dev_handle := false;
            calls := calls p ++ [LibusbReleaseInterface; LibusbClose] |}
    else p in
  if ctx p1
  then {| ctx := false; dev_handle := dev_handle p1;
          calls := calls p1 ++ [LibusbExit] |}
  else p1.

(** Lines 46-53: the descriptors read, and the first device with the
    vendor and product looked for, counting from [i]. *)
Fixpoint find_target (devices : list (Z * Z)) (i : nat) : list UsbCall * option nat :=
  match devices with
  | [] => ([], None)
  | (vendor, product) :: rest =>
      if (vendor =? USB_VENDOR) && (product =? USB_PRODUCT)
      then ([LibusbGetDeviceDescriptor i], Some i)
      else let '(log, target) := find_target rest (Datatypes.S i) in
           (LibusbGetDeviceDescriptor i :: log, target)
  end.

(** Lines 30-86; [None] when the function returns, the error when it
    throws. *)
Definition open_usb (usb : Usb) (p : Port) : option OpenError * Port :=
  let log := calls p ++ [LibusbInit] in
  if init_ret usb <? 0 then
    (Some InitFailed, {| ctx := false; dev_handle := dev_handle p; calls := log |})
  else
    let log := log ++ [LibusbGetDeviceList] in
    match device_list usb with
    | None =>
        (Some DeviceListFailed,
         {| ctx := false; dev_handle := dev_handle p; calls := log ++ [LibusbExit] |})
    | Some devices =>
        let '(descriptors, target) := find_target devices O in
        let log := log ++ descriptors in
        match target with
        | None =>
            (Some DeviceNotFound,
             {| ctx := false; dev_handle := dev_handle p;
                calls := log ++ [LibusbFreeDeviceList; LibusbExit] |})
        | Some i =>
            let log := log ++ [LibusbOpen i] in
            if open_ret usb <? 0 then
              (Some OpenFailed,
               {| ctx := false; dev_handle := dev_handle p;
                  calls := log ++ [LibusbFreeDeviceList; LibusbExit] |})
            else
              let log := log ++ [LibusbFreeDeviceList; LibusbKernelDriverActive] in
              if negb (kernel_driver_active usb =? 0) then
                let detached :=
                  {| ctx := true; dev_handle := true;
                     calls := log ++ [LibusbDetachKernelDriver] |} in
                if negb (detach_ret usb =? 0) then
                  (Some DetachFailed, cleanup detached)
                else
                  let claimed :=
                    {| ctx := true; dev_handle := true;
                       calls := calls detached ++ [LibusbClaimInterface] |} in
                  if claim_ret usb <? 0 then (Some ClaimFailed, cleanup claimed)
                  else (None, claimed)
              else
                let claimed :=
                  {| ctx := true; dev_handle := true;
                     calls := log ++ [LibusbClaimInterface] |} in
                if claim_ret usb <? 0 then (Some ClaimFailed, cleanup claimed)
                else (None, claimed)
        end
    end.

(** ** Vocabulary of the statements about the device *)

(** How often call [c] was made. *)
Definition made (c : UsbCall) (p : Port) : nat :=
  length (filter (fun c' => c' = c) (calls p)).

(** A call that reads a device descriptor. *)
Definition is_descriptor (c : UsbCall) : Prop :=
  match c with LibusbGetDeviceDescriptor _ => True | _ => False end.

(** The device looked for. *)
Definition target_ids : Z * Z := (USB_VENDOR, USB_PRODUCT).

(** ** main.cpp: the rest of [load_and_process_image] *)

(** Lines 104-109: [static_cast<int>(x / scale)], clamped to the
    image. *)
Definition source_coord (scale : float) (x size : Z) : Z :=
  Z.min (to_int (div (of_int x) scale)) (size - 1).

(** Line 111. *)
Definition source_index (scale : float) (width height channels x y : Z) : Z :=
  (source_coord scale y height * width + source_coord scale x width) * channels.

(** Lines 113-126: the three colour bytes taken at [src_idx]; one and
    two channels are gray, a fourth channel is not read. *)
Definition pixel_rgb (img_data : list Z) (channels src_idx : Z) : Z * Z * Z :=
  if channels =? 1 then
    (vget img_data src_idx, vget img_data src_idx, vget img_data src_idx)
  else if channels =? 2 then
    (vget img_data src_idx, vget img_data src_idx, vget img_data src_idx)
  else if channels =? 3 then
    (vget img_data src_idx, vget img_data (src_idx + 1), vget img_data (src_idx + 2))
  else
    (vget img_data src_idx, vget img_data (src_idx + 1), vget img_data (src_idx + 2)).

Section load.
Variable powf : float -> float -> float.

(** The value stored for destination pixel [(x, y)], lines 104-128. *)
Definition sample_gray (img_data : list Z) (width height channels : Z)
    (scale : float) (x y : Z) : float :=
  let '(r, g, b) :=
    pixel_rgb img_data channels (source_index scale width height channels x y) in
  rgb_to_gray powf r g b.

(** One turn of the loop over [y], lines 102-129. *)
Definition fill_row (img_data : list Z) (width height channels : Z)
    (scale : float) (scaled_width y : Z) (gs : list float) : list float :=
  for_range 0 scaled_width
    (fun x gs' =>
       vset gs' (y * scaled_width + x)
         (sample_gray img_data width height channels scale x y))
    gs.

(** Lines 83-130: the vector [grayscale] when the loops are left. *)
Definition resample (img_data : list Z) (width height channels max_width : Z)
    : list float :=
  let scale := image_scale width max_width in
  let '(scaled_width, scaled_height) := scaled_size width height max_width in
  for_range 0 scaled_height
    (fill_row img_data width height channels scale scaled_width)
    (vfill (scaled_width * scaled_height) zero).

(** The function from line 82 on, for an image that [stbi_load] has
    decoded: [bitmap], [out_width] and [out_height]. *)
Definition load_and_process_image (img_data : list Z)
    (width height channels max_width : Z) : list Z * Z * Z :=
  let '(scaled_width, scaled_height) := scaled_size width height max_width in
  (dither_image (resample img_data width height channels max_width)
     scaled_width scaled_height,
   scaled_width, scaled_height).

End load.

(** ** print_text.cpp: options and text *)

(** The variables set by the option loop, lines 33-38. *)
Record Settings : Type := mkSettings {
  opt_bold : bool;
  opt_underline : bool;
  opt_double_width : bool;
  opt_double_height : bool;
  opt_alignment : Printer.Alignment;
  opt_feed_lines : Z
}.

Definition default_settings : Settings :=
  {| opt_bold := false; opt_underline := false;
     opt_double_width := false; opt_double_height := false;
     opt_alignment := Printer.LEFT; opt_feed_lines := 2 |}.

(** How the option loop ends: the settings are complete, [main] returns
    [code], or [std::stoi] throws outside the [try] block. *)
Inductive Parsed : Type :=
| Ready (s : Settings)
| Return (code : Z)
| Thrown.

(** The option characters of the [switch], as [getopt_long] returns
    them. *)
Definition char_b : Z := 98.
Definition char_u : Z := 117.
Definition char_l : Z := 108.
Definition char_c : Z := 99.
Definition char_r : Z := 114.
Definition char_w : Z := 119.
Definition char_t : Z := 116.
Definition char_L : Z := 76.
Definition char_f : Z := 102.
Definition char_h : Z := 104.

(** The [switch] of lines 59-94 for one option: [opt] is what
    [getopt_long] returned and [arg] the result of [std::stoi (optarg)],
    [None] when it throws; only [f] looks at it. *)
Definition apply_option (s : Settings) (opt : Z) (arg : option Z) : Parsed :=
  if opt =? char_b then
    Ready {| opt_bold := true; opt_underline := opt_underline s;
             opt_double_width := opt_double_width s;
             opt_double_height := opt_double_height s;
             opt_alignment := opt_alignment s;
             opt_feed_lines := opt_feed_lines s |}
  else if opt =? char_u then
    Ready {| opt_bold := opt_bold s; opt_underline := true;
             opt_double_width := opt_double_width s;
             opt_double_height := opt_double_height s;
             opt_alignment := opt_alignment s;
             opt_feed_lines := opt_feed_lines s |}
  else if opt =? char_l then
    Ready {| opt_bold := opt_bold s; opt_underline := opt_underline s;
             opt_double_width := opt_double_width s;
             opt_double_height := opt_double_height s;
             opt_alignment := Printer.LEFT;
             opt_feed_lines := opt_feed_lines s |}
  else if opt =? char_c then
    Ready {| opt_bold := opt_bold s; opt_underline := opt_underline s;
             opt_double_width := opt_double_width s;
             opt_double_height := opt_double_height s;
             opt_alignment := Printer.CENTER;
             opt_feed_lines := opt_feed_lines s |}
  else if opt =? char_r then
    Ready {| opt_bold := opt_bold s; opt_underline := opt_underline s;
             opt_double_width := opt_double_width s;
             opt_double_height := opt_double_height s;
             opt_alignment := Printer.RIGHT;
             opt_feed_lines := opt_feed_lines s |}
  else if opt =? char_w then
    Ready {| opt_bold := opt_bold s; opt_underline := opt_underline s;
             opt_double_width := true;
             opt_double_height := opt_double_height s;
             opt_alignment := opt_alignment s;
             opt_feed_lines := opt_feed_lines s |}
  else if opt =? char_t then
    Ready {| opt_bold := opt_bold s; opt_underline := opt_underline s;
             opt_double_width := opt_double_width s;
             opt_double_height := true;
             opt_alignment := opt_alignment s;
             opt_feed_lines := opt_feed_lines s |}
  else if opt =? char_L then
    Ready {| opt_bold := opt_bold s; opt_underline := opt_underline s;
             opt_double_width := true;
             opt_double_height := true;
             opt_alignment := opt_alignment s;
             opt_feed_lines := opt_feed_lines s |}
  else if opt =? char_f then
    match arg with
    | Some n =>
        Ready {| opt_bold := opt_bold s; opt_underline := opt_underline s;
                 opt_double_width := opt_double_width s;
                 opt_double_height := opt_double_height s;
                 opt_alignment := opt_alignment s;
                 opt_feed_lines := n |}
    | None => Thrown
    end
  else if opt =? char_h then Return 0
  else Return 1.

(** Lines 58-95, the [while] loop over the options; the list holds what
    the calls of [getopt_long] return before -1. *)
Fixpoint parse_options (opts : list (Z * option Z)) (s : Settings) : Parsed :=
  match opts with
  | [] => Ready s
  | (opt, arg) :: rest =>
      match apply_option s opt arg with
      | Ready s' => parse_options rest s'
      | stop => stop
      end
  end.

(** The format byte [main] builds from the settings, lines 107-111. *)
Definition settings_format (s : Settings) : Z :=
  text_format (opt_bold s) (opt_underline s)
    (opt_double_width s) (opt_double_height s).

(** [std::getline (std::cin, line)] on the bytes still unread: the line
    up to the first newline and what follows it; it fails only when
    nothing is left to read. *)
Fixpoint take_line (input : list Z) : list Z * list Z :=
  match input with
  | [] => ([], [])
  | c :: rest =>
      if c =? 10 then ([], rest)
      else let '(line, rest') := take_line rest in (c :: line, rest')
  end.

Definition getline (input : list Z) : option (list Z * list Z) :=
  match input with
  | [] => None
  | _ => Some (take_line input)
  end.

(** Lines 121-127, the [while] loop; [fuel] bounds the number of turns. *)
Fixpoint print_lines (fuel : nat) (first_line : bool) (input : list Z)
    : Printer.M unit :=
  match fuel with
  | O => Printer.ret tt
  | Datatypes.S fuel' =>
      match getline input with
      | None => Printer.ret tt
      | Some (line, rest) =>
          Printer.bind
            (if first_line then Printer.ret 0 else Printer.write_string [10])
            (fun _ =>
               Printer.bind (Printer.write_string line)
                 (fun _ => print_lines fuel' false rest))
      end
  end.

(** Lines 117-134: the text, two newlines, the feed and the reset.
    [feed_lines] is an [int] passed for a [uint8_t]. *)
Definition print_text (input : list Z) (feed_lines : Z) : Printer.M unit :=
  Printer.bind (print_lines (Datatypes.S (length input)) true input) (fun _ =>
  Printer.bind (Printer.write_string [10; 10]) (fun _ =>
  Printer.bind (Printer.feed_lines (u8 feed_lines)) (fun _ =>
  Printer.bind Printer.reset (fun _ => Printer.ret tt)))).

(** ** Vocabulary of the further statements *)

(** A float that is not below zero: its sign bit is clear, or it is a
    NaN. *)
Definition unsigned (f : float) : bool :=
  match f with
  | S754_zero s | S754_infinity s | S754_finite s _ _ => negb s
  | S754_nan => true
  end.

(** [static_cast<int>] is defined on [f]: a finite value within the range
    of [int]. *)
Definition int_defined (f : float) : bool :=
  match f with
  | S754_zero _ => true
  | S754_finite _ _ _ => (-2 ^ 31 <=? to_int f) && (to_int f <? 2 ^ 31)
  | _ => false
  end.

(** The float of a positive integer below 2^24: its digits moved up to
    fill the 24 of the mantissa. *)
Definition norm24 (p : positive) : positive * Z :=
  let d := Z.pos (digits2_pos p) in
  match d - 24 with
  | Zneg k => (Pos.iter xO p k, d - 24)
  | _ => (p, 0)
  end.

(** Two vectors of one size that agree below index [k]. *)
Definition agree_below (k : Z) (v v' : list float) : Prop :=
  length v = length v' /\ forall i, 0 <= i < k -> vget v i = vget v' i.

(** The input without its last newline, if it ends in one. *)
Fixpoint strip_newline (input : list Z) : list Z :=
  match input with
  | [] => []
  | c :: rest =>
      match rest with
      | [] => if c =? 10 then [] else [c]
      | _ => c :: strip_newline rest
      end
  end.

(** Option character [c] is among the options given. *)
Definition given (c : Z) (opts : list (Z * option Z)) : Prop := c ∈ opts.*1.

(** The alignment an option character asks for. *)
Definition alignment_of (opt : Z * option Z) : option Printer.Alignment :=
  if fst opt =? char_l then Some Printer.LEFT
  else if fst opt =? char_c then Some Printer.CENTER
  else if fst opt =? char_r then Some Printer.RIGHT
  else None.

(** The feed count an option sets. *)
Definition feed_of (opt : Z * option Z) : option Z :=
  if fst opt =? char_f then snd opt else None.

(** The option characters after which the loop goes on. *)
Definition keeps_going (opt : Z) : bool :=
  (opt =? char_b) || (opt =? char_u) || (opt =? char_l) || (opt =? char_c)
  || (opt =? char_r) || (opt =? char_w) || (opt =? char_t) || (opt =? char_L)
  || (opt =? char_f).

(** The text [print_text] sends for [input]: the input, one newline if it
    does not end in one, and one more. *)
Definition ends_in_newline (input : list Z) : bool :=
  match last input with
  | Some c => c =? 10
  | None => false
  end.

Definition text_sent (input : list Z) : list Z :=
  input ++ (if ends_in_newline input then [10] else [10; 10]).

(** ** Vocabulary of the statements *)

(** Pixel [(x, y)] has had its turn when the scan stands at [(X, Y)]. *)
Definition visited (Y X y x : Z) : Prop := y < Y \/ (y = Y /\ x < X).

(** The bits set in a bitmap are those of the black pixels among the
    [seen] ones, each in its byte and at its bit. *)
Definition bits_of (g : list float) (width height : Z)
    (seen : Z -> Z -> Prop) (bm : list Z) : Prop :=
  forall i j, 0 <= i < (width + 7) ÷ 8 * height -> 0 <= j ->
    Z.testbit (vget bm i) j = true <->
    exists x y, (0 <= y < height /\ 0 <= x < width)
                /\ (i = y * ((width + 7) ÷ 8) + x ÷ 8 /\ j = 7 - Z.rem x 8)
                /\ seen y x /\ black_at g width height x y = true.

(** A sample is [binary] when it is [0.0f] or [1.0f]. *)
Definition binary (v : float) : Prop := v = zero \/ v = one.

(** The grayscale raster of a bit pattern: [0.0f] where it is black,
    [1.0f] where it is white. *)
Definition gray_of_mono (m : list bool) : list float :=
  (fun b : bool => if b then zero else one) <$> m.

(** * Properties *)

(** [lia] after the truncating and flooring quotients are replaced by
    their defining equations. *)
Ltac zquot := Z.quot_rem_to_equations; Z.div_mod_to_equations; lia.

(** ** Counted loops *)

Section for_range.
Context {S : Type}.
Implicit Types (body : Z -> S -> S) (s : S).

Lemma for_iter_last n i body s :
  for_iter (Datatypes.S n) i body s
  = body (i + Z.of_nat n) (for_iter n i body s).
Proof.
  revert i s. induction n as [|n IH]; intros i s.
  - simpl. f_equal. lia.
  - change (for_iter (Datatypes.S (Datatypes.S n)) i body s)
      with (for_iter (Datatypes.S n) (i + 1) body (body i s)).
    rewrite IH. simpl. f_equal. lia.
Qed.

Lemma for_range_empty lo hi body s : hi <= lo -> for_range lo hi body s = s.
Proof.
  intros Hle. unfold for_range.
  replace (Z.to_nat (hi - lo)) with O by lia. reflexivity.
Qed.

Lemma for_range_last lo hi body s :
  lo <= hi ->
  for_range lo (hi + 1) body s = body hi (for_range lo hi body s).
Proof.
  intros Hle. unfold for_range.
  replace (Z.to_nat (hi + 1 - lo)) with (Datatypes.S (Z.to_nat (hi - lo))) by lia.
  rewrite for_iter_last. f_equal. lia.
Qed.

(** A property kept by every turn holds when the loop is left. *)
Lemma for_range_inv (P : S -> Prop) lo hi body s :
  P s ->
  (forall i s', lo <= i < hi -> P s' -> P (body i s')) ->
  P (for_range lo hi body s).
Proof.
  intros Hs Hstep. unfold for_range.
  remember (Z.to_nat (hi - lo)) as n eqn:En.
  assert (Hn : lo + Z.of_nat n <= Z.max lo hi) by lia.
  clear En. revert lo s Hs Hstep Hn.
  induction n as [|n IH]; intros lo s Hs Hstep Hn; simpl; [assumption|].
  apply IH.
  - apply Hstep; [lia | assumption].
  - intros i s' Hi. apply Hstep. lia.
  - lia.
Qed.

End for_range.

(** ** Vectors *)

Section vectors.
Context {A : Type} `{Inhabited A}.
Implicit Types (v : list A) (i j : Z) (a : A).

Lemma length_vset v i a : length (vset v i a) = length v.
Proof. unfold vset. destruct (i <? 0); [reflexivity | apply length_insert]. Qed.

Lemma length_vfill n a : length (vfill n a) = Z.to_nat n.
Proof. apply length_replicate. Qed.

Lemma vget_vset v i j a :
  vget (vset v i a) j
  = if decide (i = j /\ 0 <= i < Z.of_nat (length v)) then a else vget v j.
Proof.
  unfold vget, vset.
  destruct (Z.ltb_spec j 0) as [Hj|Hj].
  - destruct (decide _) as [[-> [? _]]|]; [lia | reflexivity].
  - destruct (Z.ltb_spec i 0) as [Hi|Hi].
    + destruct (decide _) as [[_ [? _]]|]; [lia | reflexivity].
    + rewrite list_lookup_total_insert.
      destruct (decide (Z.to_nat i = Z.to_nat j /\ (Z.to_nat i < length v)%nat))
        as [[Hij Hlt]|Hn];
        destruct (decide (i = j /\ 0 <= i < Z.of_nat (length v))) as [[? ?]|Hn'];
        try reflexivity; exfalso.
      * apply Hn'. lia.
      * apply Hn. lia.
Qed.

Lemma vget_vfill n a i : 0 <= i < n -> vget (vfill n a) i = a.
Proof.
  intros Hi. unfold vget, vfill.
  destruct (Z.ltb_spec i 0); [lia|].
  apply lookup_total_replicate_2. lia.
Qed.

(** Storing the value a cell already holds leaves the vector as it is;
    outside the bounds nothing is stored at all. *)
Lemma vset_same v i a :
  (0 <= i < Z.of_nat (length v) -> vget v i = a) -> vset v i a = v.
Proof.
  intros Ha. unfold vset, vget in *.
  destruct (Z.ltb_spec i 0) as [Hi|Hi]; [reflexivity|].
  apply list_insert_id'. intros Hlt.
  rewrite <- Ha by lia. apply list_lookup_lookup_total_lt. exact Hlt.
Qed.

Lemma vget_elem_of v i : 0 <= i < Z.of_nat (length v) -> vget v i ∈ v.
Proof.
  intros Hi. unfold vget. destruct (Z.ltb_spec i 0); [lia|].
  apply list_elem_of_lookup_total_2. lia.
Qed.

Lemma vget_outside v i : Z.of_nat (length v) <= i -> vget v i = inhabitant.
Proof.
  intros Hi. unfold vget. destruct (Z.ltb_spec i 0); [reflexivity|].
  rewrite list_lookup_total_alt, lookup_ge_None_2; [reflexivity | lia].
Qed.

End vectors.

(** ** Arithmetic of the byte and bit indices *)

Lemma bytes_per_row_ceil width :
  0 <= width -> width <= 8 * ((width + 7) ÷ 8) < width + 8.
Proof. intros. zquot. Qed.

Lemma byte_idx_range width height x y :
  0 <= x < width -> 0 <= y < height ->
  0 <= y * ((width + 7) ÷ 8) + x ÷ 8 < (width + 7) ÷ 8 * height.
Proof.
  intros Hx Hy.
  assert (0 <= x ÷ 8 < (width + 7) ÷ 8) by zquot.
  nia.
Qed.

Lemma bit_idx_range x : 0 <= x -> 0 <= 7 - Z.rem x 8 < 8.
Proof. intros. zquot. Qed.

(** A pixel is determined by its byte and its bit. *)
Lemma pixel_of_byte_bit n x y x' y' :
  0 <= x -> 0 <= x' -> x ÷ 8 < n -> x' ÷ 8 < n ->
  y * n + x ÷ 8 = y' * n + x' ÷ 8 ->
  7 - Z.rem x 8 = 7 - Z.rem x' 8 ->
  x = x' /\ y = y'.
Proof.
  intros Hx Hx' Hn Hn' Hi Hj.
  assert (0 <= x ÷ 8) by zquot.
  assert (0 <= x' ÷ 8) by zquot.
  assert (y = y') as -> by nia.
  split; [zquot | reflexivity].
Qed.

Lemma testbit_set (b k j : Z) :
  0 <= k < 8 -> 0 <= j ->
  Z.testbit (Z.land (Z.lor b (Z.shiftl 1 k)) 255) j
  = (Z.testbit b j || (j =? k)) && (j <? 8).
Proof.
  intros Hk Hj.
  change 255 with (Z.ones 8).
  rewrite Z.land_spec, Z.lor_spec, Z.shiftl_spec by lia.
  rewrite Z.testbit_ones_nonneg by lia.
  assert (Hone : Z.testbit 1 (j - k) = (j =? k)).
  { destruct (Z.eqb_spec j k) as [->|Hne].
    - rewrite Z.sub_diag. reflexivity.
    - destruct (Z.ltb_spec j k).
      + apply Z.testbit_neg_r. lia.
      + apply (Z.bits_above_log2 1); simpl; lia. }
  rewrite Hone. destruct (Z.leb_spec 0 j); [reflexivity | lia].
Qed.

(** ** The scan of [dither_image] *)

Lemma grayscale_dither_pixel width height y x fr :
  grayscale (dither_pixel width height y x fr) = grayscale fr.
Proof. reflexivity. Qed.

Lemma bitmap_dither_pixel width height y x fr :
  bitmap (dither_pixel width height y x fr)
  = if ltb (quantize (vget (working_copy fr) (y * width + x))) half
    then set_bit (bitmap fr) (y * ((width + 7) ÷ 8) + x ÷ 8) (7 - Z.rem x 8)
    else bitmap fr.
Proof. reflexivity. Qed.

Lemma length_set_bit bm i k : length (set_bit bm i k) = length bm.
Proof. apply length_vset. Qed.

Lemma length_bitmap_dither_pixel width height y x fr :
  length (bitmap (dither_pixel width height y x fr)) = length (bitmap fr).
Proof.
  rewrite bitmap_dither_pixel.
  destruct (ltb _ half); [apply length_set_bit | reflexivity].
Qed.

Section scan.
Variables (g : list float) (width height : Z).

Abbreviation bytes_per_row := ((width + 7) ÷ 8).
Abbreviation frame := (frame_at g width height).

Lemma frame_at_origin : frame 0 0 = dither_init g width height.
Proof. unfold frame_at. rewrite !for_range_empty by lia. reflexivity. Qed.

Lemma frame_at_next y x :
  0 <= x -> frame y (x + 1) = dither_pixel width height y x (frame y x).
Proof. intros Hx. unfold frame_at. rewrite for_range_last by lia. reflexivity. Qed.

Lemma frame_at_row y : 0 <= y -> frame (y + 1) 0 = frame y width.
Proof.
  intros Hy. unfold frame_at.
  rewrite (for_range_last 0 y) by lia.
  rewrite (for_range_empty 0 0) by lia. reflexivity.
Qed.

Lemma frame_at_end : dither_run g width height = frame height 0.
Proof. unfold frame_at. rewrite (for_range_empty 0 0) by lia. reflexivity. Qed.

(** Induction along the scan: left to right in a row, then the next
    row. *)
Lemma scan_ind (P : Z -> Z -> Prop) :
  0 <= width ->
  P 0 0 ->
  (forall y x, 0 <= y < height -> 0 <= x < width -> P y x -> P y (x + 1)) ->
  (forall y, 0 <= y < height -> P y width -> P (y + 1) 0) ->
  forall y x, 0 <= y <= height -> 0 <= x <= width -> (y = height -> x = 0) ->
  P y x.
Proof.
  intros Hw H00 Hpix Hrow.
  assert (Hinner : forall y, 0 <= y < height -> P y 0 ->
                   forall n : nat, Z.of_nat n <= width -> P y (Z.of_nat n)).
  { intros y Hy Hy0 n. induction n as [|n IH]; intros Hn; [exact Hy0|].
    rewrite Nat2Z.inj_succ. apply Hpix; [lia | lia | apply IH; lia]. }
  assert (Houter : forall n : nat, Z.of_nat n <= height -> P (Z.of_nat n) 0).
  { intros n. induction n as [|n IH]; intros Hn; [exact H00|].
    rewrite Nat2Z.inj_succ. apply Hrow; [lia|].
    rewrite <- (Z2Nat.id width) by lia.
    apply Hinner; [lia | apply IH; lia | lia]. }
  intros y x Hy Hx Hlast.
  rewrite <- (Z2Nat.id y), <- (Z2Nat.id x) by lia.
  destruct (Z.eq_dec y height) as [->|Hne].
  - rewrite (Hlast eq_refl). apply Houter. lia.
  - apply Hinner; [lia | apply Houter; lia | lia].
Qed.

(** *** The caller's vector *)

Lemma grayscale_dither_row y fr :
  grayscale (dither_row width height y fr) = grayscale fr.
Proof.
  unfold dither_row.
  apply (for_range_inv (fun fr' => grayscale fr' = grayscale fr)); [reflexivity|].
  intros i fr' _ Hfr. rewrite grayscale_dither_pixel. exact Hfr.
Qed.

Lemma grayscale_dither_run : grayscale (dither_run g width height) = g.
Proof.
  unfold dither_run.
  apply (for_range_inv (fun fr => grayscale fr = g)); [reflexivity|].
  intros i fr _ Hfr. rewrite grayscale_dither_row. exact Hfr.
Qed.

(** *** The size of the bitmap *)

Lemma length_bitmap_dither_row y fr :
  length (bitmap (dither_row width height y fr)) = length (bitmap fr).
Proof.
  unfold dither_row.
  apply (for_range_inv (fun fr' => length (bitmap fr') = length (bitmap fr)));
    [reflexivity|].
  intros i fr' _ Hfr. rewrite length_bitmap_dither_pixel. exact Hfr.
Qed.

Lemma length_bitmap_frame_at y x :
  length (bitmap (frame y x)) = Z.to_nat (bytes_per_row * height).
Proof.
  unfold frame_at.
  apply (for_range_inv
           (fun fr => length (bitmap fr) = Z.to_nat (bytes_per_row * height))).
  - apply (for_range_inv
             (fun fr => length (bitmap fr) = Z.to_nat (bytes_per_row * height))).
    + apply length_vfill.
    + intros i fr _ Hfr. rewrite length_bitmap_dither_row. exact Hfr.
  - intros i fr _ Hfr. rewrite length_bitmap_dither_pixel. exact Hfr.
Qed.

Lemma length_dither_image :
  length (dither_image g width height) = Z.to_nat (bytes_per_row * height).
Proof. unfold dither_image. rewrite frame_at_end. apply length_bitmap_frame_at. Qed.

End scan.

(** ** The bits of the bitmap *)

Section packing.
Variables (g : list float) (width height : Z).
Hypothesis width_nonneg : 0 <= width.

Abbreviation bpr := ((width + 7) ÷ 8).

Abbreviation bits := (bits_of g width height).

Lemma bits_of_ext (seen seen' : Z -> Z -> Prop) bm :
  (forall y x, 0 <= y < height -> 0 <= x < width -> seen y x <-> seen' y x) ->
  bits seen bm -> bits seen' bm.
Proof.
  intros Hext Hbits i j Hi Hj. rewrite (Hbits i j Hi Hj).
  split; intros (x & y & Hxy & Hij & Hseen & Hb); exists x, y;
    (split; [exact Hxy | split; [exact Hij | split; [|exact Hb]]]);
    apply (Hext y x); tauto.
Qed.

Lemma bits_of_init :
  bits (visited 0 0) (bitmap (dither_init g width height)).
Proof.
  intros i j Hi Hj. simpl. rewrite vget_vfill by lia. rewrite Z.bits_0.
  split; [discriminate|].
  intros (x & y & Hxy & _ & Hv & _). unfold visited in Hv. lia.
Qed.

Lemma bits_of_next Y X :
  0 <= Y < height -> 0 <= X < width ->
  bits (visited Y X) (bitmap (frame_at g width height Y X)) ->
  bits (visited Y (X + 1)) (bitmap (frame_at g width height Y (X + 1))).
Proof.
  intros HY HX IH. rewrite frame_at_next by lia. rewrite bitmap_dither_pixel.
  fold (black_at g width height X Y).
  pose proof (byte_idx_range width height X Y HX HY) as Hi0.
  pose proof (bit_idx_range X (proj1 HX)) as Hk.
  destruct (black_at g width height X Y) eqn:Hblack.
  - (* the pixel is black: one more bit is set *)
    intros i j Hi Hj. unfold set_bit. rewrite vget_vset.
    rewrite length_bitmap_frame_at.
    destruct (decide _) as [[<- _]|Hne].
    + rewrite testbit_set by lia.
      rewrite andb_true_iff, orb_true_iff, Z.eqb_eq, Z.ltb_lt, (IH _ j Hi Hj).
      split.
      * intros [[(x & y & Hxy & Hij & Hv & Hb)| ->] Hj8].
        -- exists x, y. repeat split; try tauto. unfold visited in *. lia.
        -- exists X, Y. repeat split; try tauto; try lia.
           unfold visited. lia.
      * intros (x & y & Hxy & Hij & Hv & Hb).
        assert (Hj8 : j < 8) by (destruct Hij as [_ ->]; zquot).
        split; [|exact Hj8].
        destruct (Z.eq_dec y Y) as [->|HyY];
          [destruct (Z.eq_dec x X) as [->|HxX]|].
        -- right. tauto.
        -- left. exists x, Y. repeat split; try tauto. unfold visited in *. lia.
        -- left. exists x, y. repeat split; try tauto. unfold visited in *. lia.
    + rewrite (IH i j Hi Hj).
      split; intros (x & y & Hxy & Hij & Hv & Hb); exists x, y;
        (split; [exact Hxy | split; [exact Hij | split; [|exact Hb]]]);
        unfold visited in *.
      * lia.
      * destruct (Z.eq_dec y Y) as [->|HyY];
          [destruct (Z.eq_dec x X) as [->|HxX]|]; lia.
  - (* the pixel is white: the bitmap is left alone *)
    intros i j Hi Hj. rewrite (IH i j Hi Hj).
    split; intros (x & y & Hxy & Hij & Hv & Hb); exists x, y;
      (split; [exact Hxy | split; [exact Hij | split; [|exact Hb]]]);
      unfold visited in *.
    + lia.
    + destruct (Z.eq_dec y Y) as [->|HyY];
        [destruct (Z.eq_dec x X) as [->|HxX]|]; first [lia | congruence].
Qed.

Lemma bits_of_frame_at y x :
  0 <= y <= height -> 0 <= x <= width -> (y = height -> x = 0) ->
  bits (visited y x) (bitmap (frame_at g width height y x)).
Proof.
  apply (scan_ind width height
           (fun y x => bits (visited y x) (bitmap (frame_at g width height y x))));
    [exact width_nonneg | | exact bits_of_next | ].
  - rewrite frame_at_origin. exact bits_of_init.
  - intros Y HY IH. rewrite frame_at_row by lia.
    apply (bits_of_ext (visited Y width)); [|exact IH].
    intros y' x' Hy' Hx'. unfold visited. lia.
Qed.

(** When [dither_image] returns every pixel has had its turn. *)
Lemma bits_of_dither_image :
  0 <= height ->
  bits (fun _ _ => True) (dither_image g width height).
Proof.
  intros Hh. unfold dither_image. rewrite frame_at_end.
  apply (bits_of_ext (visited height 0)).
  - intros y x Hy Hx. unfold visited. split; [tauto | intros _; lia].
  - apply bits_of_frame_at; lia.
Qed.

(** The bit of a pixel is the ditherer's decision for it. *)
Lemma packed_bit_dither_image x y :
  0 <= x < width -> 0 <= y < height ->
  packed_bit (dither_image g width height) bpr x y = black_at g width height x y.
Proof.
  intros Hx Hy. apply eq_true_iff_eq. unfold packed_bit.
  rewrite (bits_of_dither_image (ltac:(lia)) _ _
             (byte_idx_range width height x y Hx Hy)
             (proj1 (bit_idx_range x (proj1 Hx)))).
  split.
  - intros (x' & y' & [Hy' Hx'] & [Hi Hj] & _ & Hb).
    destruct (pixel_of_byte_bit bpr x y x' y') as [-> ->];
      try assumption; try lia; try zquot.
  - intros Hb. exists x, y. tauto.
Qed.

(** Bits that belong to no pixel are clear: the bits past the last
    column of a row, and any bit above the seventh. *)
Lemma clear_bit_dither_image i j :
  0 <= height -> 0 <= i < bpr * height -> 0 <= j ->
  (forall x y, 0 <= x < width -> 0 <= y < height ->
               i = y * bpr + x ÷ 8 -> j <> 7 - Z.rem x 8) ->
  Z.testbit (vget (dither_image g width height) i) j = false.
Proof.
  intros Hh Hi Hj Hfree. apply not_true_is_false.
  rewrite (bits_of_dither_image Hh i j Hi Hj).
  intros (x & y & [Hy Hx] & [Hi' Hj'] & _). exact (Hfree x y Hx Hy Hi' Hj').
Qed.

End packing.

(** ** Rasters that are already black and white *)

Lemma error_binary v : binary v -> sub v (quantize v) = zero.
Proof. intros [-> | ->]; reflexivity. Qed.

Lemma black_binary v : binary v -> ltb (quantize v) half = true <-> v = zero.
Proof. intros [-> | ->]; vm_compute; split; congruence. Qed.

(** The share of a zero error is zero, and adding it changes nothing. *)
Lemma add_share_binary v k :
  binary v -> k = 7 \/ k = 3 \/ k = 5 \/ k = 1 ->
  add v (div (mul zero (of_int k)) (of_int 16)) = v.
Proof. intros [-> | ->] [-> | [-> | [-> | ->]]]; reflexivity. Qed.

Section binary_raster.
Variables (width height : Z).
Implicit Types (wc : list float).

Lemma vget_binary wc i : Forall binary wc -> binary (vget wc i).
Proof.
  intros Hwc.
  destruct (Z_lt_le_dec i 0) as [Hneg|Hpos];
    [|destruct (Z_lt_le_dec i (Z.of_nat (length wc))) as [Hin|Hout]].
  - unfold vget. destruct (Z.ltb_spec i 0); [left; reflexivity | lia].
  - rewrite Forall_forall in Hwc. apply Hwc, vget_elem_of. lia.
  - rewrite vget_outside by lia. left. reflexivity.
Qed.

Lemma diffuse_zero wc i k :
  Forall binary wc -> k = 7 \/ k = 3 \/ k = 5 \/ k = 1 ->
  diffuse wc i zero k = wc.
Proof.
  intros Hwc Hk. unfold diffuse. apply vset_same. intros _. symmetry.
  apply add_share_binary; [apply vget_binary; exact Hwc | exact Hk].
Qed.

(** No error leaves a pixel of a binary raster. *)
Lemma working_copy_dither_pixel y x fr :
  Forall binary (working_copy fr) ->
  working_copy (dither_pixel width height y x fr) = working_copy fr.
Proof.
  intros Hwc. unfold dither_pixel. cbv zeta. cbn [working_copy].
  rewrite (error_binary _ (vget_binary _ _ Hwc)).
  destruct (x + 1 <? width), (y + 1 <? height), (0 <? x);
    rewrite ?(diffuse_zero (working_copy fr)) by (assumption || lia);
    reflexivity.
Qed.

Variable g : list float.
Hypothesis g_binary : Forall binary g.

Lemma working_copy_dither_row y fr :
  working_copy fr = g -> working_copy (dither_row width height y fr) = g.
Proof.
  intros Hfr. unfold dither_row.
  apply (for_range_inv (fun fr' => working_copy fr' = g)); [exact Hfr|].
  intros i fr' _ Hfr'. rewrite working_copy_dither_pixel; rewrite Hfr'; auto.
Qed.

Lemma working_copy_frame_at y x :
  working_copy (frame_at g width height y x) = g.
Proof.
  unfold frame_at.
  apply (for_range_inv (fun fr => working_copy fr = g)).
  - apply (for_range_inv (fun fr => working_copy fr = g)); [reflexivity|].
    intros i fr _ Hfr. apply working_copy_dither_row. exact Hfr.
  - intros i fr _ Hfr. rewrite working_copy_dither_pixel; rewrite Hfr; auto.
Qed.

Lemma working_copy_dither_run : working_copy (dither_run g width height) = g.
Proof. rewrite frame_at_end. apply working_copy_frame_at. Qed.

(** The ditherer's decision is the sample itself. *)
Lemma black_at_binary x y :
  black_at g width height x y = true <-> vget g (y * width + x) = zero.
Proof.
  unfold black_at. rewrite working_copy_frame_at.
  apply black_binary, vget_binary, g_binary.
Qed.

End binary_raster.

(** ** Row-major rasters *)

Section raster.
Context {A : Type}.
Variables (width : Z).
Hypothesis width_nonneg : 0 <= width.
Implicit Types (f : Z -> Z -> A) (l : list A).

Lemma raster_row height f :
  0 <= height ->
  raster width (height + 1) f
  = raster width height f ++ ((fun x => f x height) <$> seqZ 0 width).
Proof.
  intros Hh. unfold raster.
  rewrite seqZ_app by lia. rewrite bind_app. f_equal.
  rewrite (seqZ_cons (0 + height) 1), (seqZ_nil _ (Z.pred 1)) by lia.
  simpl. apply app_nil_r.
Qed.

Lemma length_raster height f :
  0 <= height -> length (raster width height f) = Z.to_nat (height * width).
Proof.
  revert height. apply (natlike_ind (fun h => length (raster width h f) = Z.to_nat (h * width))).
  - reflexivity.
  - intros h Hh IH. unfold Z.succ. rewrite raster_row by lia.
    rewrite length_app, IH, length_fmap, length_seqZ. nia.
Qed.

Lemma lookup_raster height f x y :
  0 <= x < width -> 0 <= y < height ->
  raster width height f !! Z.to_nat (y * width + x) = Some (f x y).
Proof.
  intros Hx Hy. assert (Hh : 0 <= height) by lia. revert height Hh Hy.
  apply (natlike_ind (fun h => 0 <= y < h ->
           raster width h f !! Z.to_nat (y * width + x) = Some (f x y))).
  - lia.
  - intros h Hh IH Hy. unfold Z.succ. rewrite raster_row by lia.
    destruct (Z.eq_dec y h) as [->|Hne].
    + rewrite lookup_app_r; rewrite length_raster by lia; [|nia].
      replace (Z.to_nat (h * width + x) - Z.to_nat (h * width))%nat
        with (Z.to_nat x) by nia.
      rewrite list_lookup_fmap, lookup_seqZ_lt by lia.
      simpl. do 2 f_equal. lia.
    + rewrite lookup_app_l; [apply IH; lia|].
      rewrite length_raster by lia. nia.
Qed.

(** A list is the raster of [f] when it has its size and its entries. *)
Lemma raster_eq height f l :
  0 <= height ->
  length l = Z.to_nat (height * width) ->
  (forall x y, 0 <= x < width -> 0 <= y < height ->
               l !! Z.to_nat (y * width + x) = Some (f x y)) ->
  raster width height f = l.
Proof.
  intros Hh Hlen Hl. apply list_eq. intros k.
  destruct (Nat.lt_ge_cases k (Z.to_nat (height * width))) as [Hlt|Hge].
  - assert (Hw : 0 < width) by nia.
    pose proof (Z.div_mod (Z.of_nat k) width ltac:(lia)) as Hk.
    pose proof (Z.mod_pos_bound (Z.of_nat k) width Hw) as Hx.
    assert (Hy : 0 <= Z.of_nat k / width < height).
    { split; [apply Z.div_pos; lia|]. apply Z.div_lt_upper_bound; nia. }
    replace k with (Z.to_nat (Z.of_nat k / width * width + Z.of_nat k mod width))
      by lia.
    rewrite lookup_raster, Hl by assumption. reflexivity.
  - rewrite !lookup_ge_None_2; [reflexivity | lia |].
    rewrite length_raster by lia. lia.
Qed.

Lemma raster_ext height f f' :
  0 <= height ->
  (forall x y, 0 <= x < width -> 0 <= y < height -> f x y = f' x y) ->
  raster width height f = raster width height f'.
Proof.
  intros Hh Hf. apply raster_eq; [exact Hh | apply length_raster; exact Hh |].
  intros x y Hx Hy. rewrite lookup_raster by assumption. f_equal.
  symmetry. apply Hf; assumption.
Qed.

End raster.

(** ** Bit patterns carried by a grayscale raster *)

Lemma gray_of_mono_binary m : Forall binary (gray_of_mono m).
Proof.
  unfold gray_of_mono. rewrite Forall_fmap. apply Forall_true.
  intros [|]; [left | right]; reflexivity.
Qed.

Lemma vget_gray_of_mono m i b :
  m !! Z.to_nat i = Some b -> 0 <= i ->
  vget (gray_of_mono m) i = zero <-> b = true.
Proof.
  intros Hb Hi. unfold vget, gray_of_mono.
  destruct (Z.ltb_spec i 0); [lia|].
  rewrite list_lookup_total_alt, list_lookup_fmap, Hb. simpl.
  destruct b; split; intros; try reflexivity; discriminate.
Qed.

(** Dithering such a raster decides on the pattern itself. *)
Lemma dither_mono_gray_of_mono m width height :
  0 <= width -> 0 <= height ->
  length m = Z.to_nat (height * width) ->
  dither_mono (gray_of_mono m) width height = m.
Proof.
  intros Hw Hh Hlen. unfold dither_mono.
  apply raster_eq; [exact Hw | exact Hh | exact Hlen |].
  intros x y Hx Hy.
  destruct (lookup_lt_is_Some_2 m (Z.to_nat (y * width + x))) as [b Hb]; [nia|].
  rewrite Hb. f_equal. symmetry. apply eq_true_iff_eq.
  rewrite (black_at_binary width height _ (gray_of_mono_binary m)).
  apply vget_gray_of_mono; [exact Hb | nia].
Qed.

Lemma unpack_dither_image g width height :
  0 <= width -> 0 <= height -> Z.rem width 8 = 0 ->
  unpack (dither_image g width height) width height = dither_mono g width height.
Proof.
  intros Hw Hh H8. unfold unpack, dither_mono.
  apply raster_ext; [exact Hw | exact Hh |].
  intros x y Hx Hy.
  replace (width ÷ 8) with ((width + 7) ÷ 8) by zquot.
  apply packed_bit_dither_image; assumption.
Qed.

(** ** Luminance at the ends of the scale *)

Lemma luma_black : luma 0 0 0 = zero.
Proof. reflexivity. Qed.

(** In binary32 the three products for white add up to 255 exactly. *)
Lemma luma_white : luma 255 255 255 = of_int 255.
Proof. vm_compute. reflexivity. Qed.

Lemma gamma_base_ends :
  gamma_base 0 0 0 = zero /\ gamma_base 255 255 255 = one.
Proof. split; vm_compute; reflexivity. Qed.

(** With a [pow] that maps 0 to 0 and 1 to 1 at the exponent used, as
    Annex F of the C standard asks, black has luminance 0 and white has
    luminance 1. *)
Lemma rgb_to_gray_ends (powf : float -> float -> float) :
  powf zero gamma_exponent = zero ->
  powf one gamma_exponent = one ->
  rgb_to_gray powf 0 0 0 = zero /\ rgb_to_gray powf 255 255 255 = one.
Proof.
  intros H0 H1. unfold rgb_to_gray.
  destruct gamma_base_ends as [-> ->]. split; assumption.
Qed.

(** * The claims *)

(** C1, as the code has it.  The packing cannot fail: for every width,
    byte aligned or not, [dither_image] returns a bitmap with
    [(width + 7) / 8] bytes in each row, which is [width / 8] when the
    width is a multiple of 8. *)
Theorem pack_never_fails g width height :
  0 <= width -> 0 <= height ->
  exists bm,
    pack_result g width height = inr bm
    /\ length bm = Z.to_nat ((width + 7) / 8 * height)
    /\ (width mod 8 = 0 -> length bm = Z.to_nat (width / 8 * height)).
Proof.
  intros Hw Hh. exists (dither_image g width height).
  split; [reflexivity|].
  rewrite length_dither_image.
  split; [|intros H8]; f_equal; f_equal; zquot.
Qed.

Lemma pack_never_fails_witness :
  exists bm,
    pack_result (vfill 8 zero) 4 2 = inr bm
    /\ length bm = Z.to_nat ((4 + 7) / 8 * 2)
    /\ (4 mod 8 = 0 -> length bm = Z.to_nat (4 / 8 * 2)).
Proof. apply (pack_never_fails (vfill 8 zero) 4 2); lia. Defined.

(** C1, refuted as stated: a raster of width 4 is packed, into one padded
    byte, where the claim asks for [InvalidDimension]. *)
Lemma pack_misaligned_returns :
  4 mod 8 <> 0
  /\ pack_result (vfill 4 zero) 4 1 = inr [240]
  /\ pack_result (vfill 4 zero) 4 1 <> inl InvalidDimension.
Proof. split; [discriminate | split; [reflexivity | discriminate]]. Qed.

(** C2, as the code has it.  The uniform raster of 8 x 2 samples 0.5
    dithers to the bytes 0xAA, 0x55: the first sample is not greater than
    0.5, so it quantizes to 0.0, and 0.0 is printed as a black bit; the
    error it leaves then alternates the pixels that follow. *)
Theorem dither_mid_gray :
  quantize half = zero
  /\ black_at (vfill (8 * 2) half) 8 2 0 0 = true
  /\ dither_image (vfill (8 * 2) half) 8 2 = [170; 85].
Proof. repeat split; vm_compute; reflexivity. Qed.

(** C2, refuted as stated: the output is not all white, its very first
    bit is black. *)
Lemma dither_mid_gray_not_white :
  packed_bit (dither_image (vfill (8 * 2) half) 8 2) 1 0 0 = true
  /\ dither_image (vfill (8 * 2) half) 8 2 <> [0; 0].
Proof. split; [vm_compute; reflexivity | vm_compute; discriminate]. Qed.

(** C3.  An all-black raster gives a black bit for every pixel, an
    all-white raster gives a white bit for every pixel and bytes that are
    all zero, and in both cases the working copy ends as it started: no
    error was diffused. *)
Theorem dither_uniform_extremes width height :
  0 <= width -> 0 <= height ->
  let black := vfill (width * height) zero in
  let white := vfill (width * height) one in
  (forall x y, 0 <= x < width -> 0 <= y < height ->
     Z.testbit (vget (dither_image black width height)
                  (y * ((width + 7) / 8) + x / 8)) (7 - x mod 8) = true)
  /\ working_copy (dither_run black width height) = black
  /\ (forall x y, 0 <= x < width -> 0 <= y < height ->
        Z.testbit (vget (dither_image white width height)
                     (y * ((width + 7) / 8) + x / 8)) (7 - x mod 8) = false)
  /\ (forall i, 0 <= i < (width + 7) / 8 * height ->
        vget (dither_image white width height) i = 0)
  /\ working_copy (dither_run white width height) = white
  /\ dither_mono black width height = vfill (width * height) true
  /\ dither_mono white width height = vfill (width * height) false.
Proof.
  intros Hw Hh black white.
  assert (Hgb : black = gray_of_mono (vfill (width * height) true)).
  { unfold black, gray_of_mono, vfill. rewrite fmap_replicate. reflexivity. }
  assert (Hgw : white = gray_of_mono (vfill (width * height) false)).
  { unfold white, gray_of_mono, vfill. rewrite fmap_replicate. reflexivity. }
  assert (Hlen : forall b : bool,
             length (vfill (width * height) b) = Z.to_nat (height * width)).
  { intros b. rewrite length_vfill. f_equal. lia. }
  assert (Hb : Forall binary black).
  { apply Forall_replicate. left. reflexivity. }
  assert (Hwh : Forall binary white).
  { apply Forall_replicate. right. reflexivity. }
  assert (Hq : (width + 7) / 8 = (width + 7) ÷ 8) by zquot.
  assert (Hwhite : forall x y, 0 <= x < width -> 0 <= y < height ->
                     black_at white width height x y = false).
  { intros x y Hx Hy. apply not_true_is_false.
    rewrite (black_at_binary width height white Hwh).
    unfold white. rewrite vget_vfill by nia. discriminate. }
  repeat split.
  - intros x y Hx Hy.
    replace (x / 8) with (x ÷ 8) by zquot.
    replace (x mod 8) with (Z.rem x 8) by zquot. rewrite Hq.
    change (packed_bit (dither_image black width height) ((width + 7) ÷ 8) x y = true).
    rewrite packed_bit_dither_image by assumption.
    apply (black_at_binary width height black Hb).
    unfold black. apply vget_vfill. nia.
  - apply working_copy_dither_run. exact Hb.
  - intros x y Hx Hy.
    replace (x / 8) with (x ÷ 8) by zquot.
    replace (x mod 8) with (Z.rem x 8) by zquot. rewrite Hq.
    change (packed_bit (dither_image white width height) ((width + 7) ÷ 8) x y = false).
    rewrite packed_bit_dither_image by assumption. apply Hwhite; assumption.
  - intros i Hi. rewrite Hq in Hi. apply Z.bits_inj'. intros j Hj.
    rewrite Z.bits_0. apply not_true_is_false.
    rewrite (bits_of_dither_image white width height Hw Hh i j Hi Hj).
    intros (x & y & [Hy Hx] & _ & _ & Habs).
    rewrite (Hwhite x y Hx Hy) in Habs. discriminate.
  - apply working_copy_dither_run. exact Hwh.
  - rewrite Hgb. apply dither_mono_gray_of_mono; auto.
  - rewrite Hgw. apply dither_mono_gray_of_mono; auto.
Qed.

Lemma dither_uniform_extremes_witness :
  Z.testbit (vget (dither_image (vfill (16 * 2) zero) 16 2)
               (1 * ((16 + 7) / 8) + 9 / 8)) (7 - 9 mod 8) = true.
Proof.
  apply (proj1 (dither_uniform_extremes 16 2 ltac:(lia) ltac:(lia))); lia.
Defined.

(** C7.  For a width that is a multiple of 8 the bit of pixel [(x, y)]
    sits in byte [y * (width / 8) + x / 8] at position [7 - x mod 8] and
    is set exactly when the pixel is black; reading every pixel back
    yields the raster that was packed, and every bit pattern [m] survives
    packing and unpacking. *)
Theorem pack_unpack_roundtrip g m width height :
  0 <= width -> 0 <= height -> width mod 8 = 0 ->
  (forall x y, 0 <= x < width -> 0 <= y < height ->
     Z.testbit (vget (dither_image g width height)
                  (y * (width / 8) + x / 8)) (7 - x mod 8)
     = black_at g width height x y)
  /\ unpack (dither_image g width height) width height
     = dither_mono g width height
  /\ (length m = Z.to_nat (height * width) ->
      unpack (dither_image (gray_of_mono m) width height) width height = m).
Proof.
  intros Hw Hh H8.
  assert (H8' : Z.rem width 8 = 0) by zquot.
  repeat split.
  - intros x y Hx Hy.
    replace (x / 8) with (x ÷ 8) by zquot.
    replace (x mod 8) with (Z.rem x 8) by zquot.
    replace (width / 8) with ((width + 7) ÷ 8) by zquot.
    apply (packed_bit_dither_image g width height Hw x y Hx Hy).
  - apply unpack_dither_image; assumption.
  - intros Hlen. rewrite unpack_dither_image by assumption.
    apply dither_mono_gray_of_mono; assumption.
Qed.

Lemma pack_unpack_roundtrip_witness :
  unpack (dither_image (gray_of_mono [true; false; false; true; true; true; false; true])
            8 1) 8 1
  = [true; false; false; true; true; true; false; true].
Proof.
  apply (pack_unpack_roundtrip
           (vfill 8 half) [true; false; false; true; true; true; false; true] 8 1);
    [lia | lia | reflexivity | reflexivity].
Defined.

(** C9.  [dither_image] never writes through its [grayscale] reference:
    when it returns, the caller's vector holds the samples it held at the
    call. *)
Theorem dither_keeps_grayscale g width height :
  grayscale (dither_run g width height) = g.
Proof. apply grayscale_dither_run. Qed.

(** The diffusion does write, but into the copy. *)
Example dither_changes_working_copy :
  let g := vfill 4 (lit 3 10) in
  working_copy (dither_run g 2 2) <> g /\ grayscale (dither_run g 2 2) = g.
Proof. split; [vm_compute; discriminate | reflexivity]. Qed.

(** C10.  For every width the bitmap has [ceil(width / 8)] bytes for each
    row, and in each row the bits past the last pixel are clear. *)
Theorem dither_image_padded g width height :
  0 <= width -> 0 <= height ->
  exists bytes_per_row,
    (width <= 8 * bytes_per_row < width + 8)
    /\ length (dither_image g width height) = Z.to_nat (bytes_per_row * height)
    /\ (forall x y, width <= x < 8 * bytes_per_row -> 0 <= y < height ->
          x / 8 = bytes_per_row - 1
          /\ Z.testbit (vget (dither_image g width height)
                          (y * bytes_per_row + x / 8)) (7 - x mod 8) = false).
Proof.
  intros Hw Hh. exists ((width + 7) ÷ 8).
  pose proof (bytes_per_row_ceil width Hw) as Hceil.
  split; [exact Hceil|].
  split; [apply length_dither_image|].
  intros x y Hx Hy.
  assert (Hx8 : 0 <= x / 8 < (width + 7) ÷ 8) by zquot.
  split; [zquot|].
  apply clear_bit_dither_image; [exact Hw | exact Hh | nia | zquot |].
  intros x' y' Hx' Hy' Hi Hj.
  destruct (pixel_of_byte_bit ((width + 7) ÷ 8) x y x' y') as [Hxx _];
    first [lia | zquot].
Qed.

Lemma dither_image_padded_witness :
  exists bytes_per_row,
    (12 <= 8 * bytes_per_row < 12 + 8)
    /\ length (dither_image (vfill 36 zero) 12 3) = Z.to_nat (bytes_per_row * 3)
    /\ (forall x y, 12 <= x < 8 * bytes_per_row -> 0 <= y < 3 ->
          x / 8 = bytes_per_row - 1
          /\ Z.testbit (vget (dither_image (vfill 36 zero) 12 3)
                          (y * bytes_per_row + x / 8)) (7 - x mod 8) = false).
Proof. apply (dither_image_padded (vfill 36 zero) 12 3); lia. Defined.

(** C4 at a width the code gets wrong.  For an image 592 pixels wide and
    the default [max_width] of 384 the scale 384/592 rounds down in
    binary32, the product [592 * scale] is 383.99997, the conversion to
    [int] yields 383 and the output is 376 pixels wide, one byte column
    short of 384, the largest multiple of 8 within [min 592 384]. *)
Theorem scaled_width_one_column_short :
  to_int (mul (of_int 592) (image_scale 592 384)) = 383
  /\ scaled_size 592 100 384 = (376, 64)
  /\ Z.min 592 384 / 8 * 8 = 384.
Proof. repeat split; vm_compute; reflexivity. Qed.

(** C5.  [print_bitmap] sends the eight header bytes, with the width in
    bytes and the height in little-endian order, and then the whole
    payload; for [NORMAL], 16 and 2 the header is
    0x1d 0x76 0x30 0x00 0x02 0x00 0x02 0x00. *)
Theorem print_bitmap_frame mode width height packed d :
  Printer.link_up d = true ->
  0 <= width < 65536 -> 0 <= height < 65536 ->
  (exists n,
     Printer.print_bitmap mode width height packed d
     = Some (n, {| Printer.link_up := true;
                   Printer.wire :=
                     Printer.wire d
                     ++ [0x1d; 0x76; 0x30; Printer.BitmapMode_ordinal mode;
                         (width / 8) mod 256; (width / 8) / 256 mod 256;
                         height mod 256; height / 256 mod 256]
                     ++ packed |}))
  /\ (mode = Printer.NORMAL -> width = 16 -> height = 2 ->
      exists n,
        Printer.print_bitmap mode width height packed d
        = Some (n, {| Printer.link_up := true;
                      Printer.wire :=
                        Printer.wire d
                        ++ [0x1d; 0x76; 0x30; 0x00; 0x02; 0x00; 0x02; 0x00]
                        ++ packed |})).
Proof.
  intros Hup Hw Hh.
  assert (Hgen : exists n,
     Printer.print_bitmap mode width height packed d
     = Some (n, {| Printer.link_up := true;
                   Printer.wire :=
                     Printer.wire d
                     ++ [0x1d; 0x76; 0x30; Printer.BitmapMode_ordinal mode;
                         (width / 8) mod 256; (width / 8) / 256 mod 256;
                         height mod 256; height / 256 mod 256]
                     ++ packed |})).
  { unfold Printer.print_bitmap, Printer.bind, Printer.write_bytes, Printer.ret.
    rewrite Hup. cbn [Printer.link_up Printer.wire].
    eexists. do 3 f_equal. rewrite <- app_assoc. do 2 f_equal.
    change 255 with (Z.ones 8). rewrite !Z.land_ones, !Z.shiftr_div_pow2 by lia.
    replace (width ÷ 8) with (width / 8) by zquot. reflexivity. }
  split; [exact Hgen|].
  intros -> -> ->. exact Hgen.
Qed.

Lemma print_bitmap_frame_witness :
  exists n,
    Printer.print_bitmap Printer.NORMAL 16 2 [0xaa; 0x55; 0xaa; 0x55]
      (Printer.mkDevice true [0x1b; 0x40])
    = Some (n, {| Printer.link_up := true;
                  Printer.wire :=
                    [0x1b; 0x40]
                    ++ [0x1d; 0x76; 0x30; 0x00; 0x02; 0x00; 0x02; 0x00]
                    ++ [0xaa; 0x55; 0xaa; 0x55] |}).
Proof.
  apply (proj2 (print_bitmap_frame Printer.NORMAL 16 2 [0xaa; 0x55; 0xaa; 0x55]
                  (Printer.mkDevice true [0x1b; 0x40])
                  eq_refl ltac:(lia) ltac:(lia)));
    reflexivity.
Defined.

(** C8.  The format byte is the OR of the masks of the flags that are
    on; a byte that is not zero is sent as 0x1b 0x21 and the byte, and
    with every flag off nothing is sent. *)
Theorem text_style_frame (bold underline double_width double_height : bool) d :
  Printer.link_up d = true ->
  let flags :=
    Z.lor (Z.lor (Z.lor (if bold then 0x08 else 0)
                        (if double_height then 0x10 else 0))
                 (if double_width then 0x20 else 0))
          (if underline then 0x80 else 0) in
  text_format bold underline double_width double_height = flags
  /\ (flags <> 0 ->
      send_text_style bold underline double_width double_height d
      = Some (tt, {| Printer.link_up := true;
                     Printer.wire := Printer.wire d ++ [0x1b; 0x21; flags] |}))
  /\ (flags = 0 ->
      send_text_style bold underline double_width double_height d = Some (tt, d))
  /\ (flags = 0 <->
      bold = false /\ underline = false
      /\ double_width = false /\ double_height = false).
Proof.
  intros Hup. destruct d as [up w]. simpl in Hup. subst up.
  destruct bold, underline, double_width, double_height; cbv zeta;
    (split; [reflexivity|]);
    (split; [intros Hnz; try reflexivity; exfalso; apply Hnz; reflexivity|]);
    (split; [intros Hz; try discriminate Hz; reflexivity|]);
    (split; [intros Hz; try discriminate Hz; repeat split
            | intros (? & ? & ? & ?); try discriminate; reflexivity]).
Qed.

Lemma text_style_frame_witness :
  send_text_style true false true false (Printer.mkDevice true [0x1b; 0x40])
  = Some (tt, {| Printer.link_up := true;
                 Printer.wire := [0x1b; 0x40] ++ [0x1b; 0x21; 0x28] |}).
Proof.
  apply (proj1 (proj2 (text_style_frame true false true false
                         (Printer.mkDevice true [0x1b; 0x40]) eq_refl))).
  discriminate.
Defined.

(** * Further properties *)

(** ** binary32: signs and small integers *)

Lemma unsigned_binary_round_aux m e l :
  unsigned (binary_round_aux prec emax false m e l) = true.
Proof.
  unfold binary_round_aux.
  destruct (shr_fexp prec emax m e l) as [mrs' e'].
  destruct (shr_fexp prec emax _ e' loc_Exact) as [mrs'' e''].
  destruct (shr_m mrs''); [reflexivity | | reflexivity].
  destruct (e'' <=? emax - prec); reflexivity.
Qed.

Lemma unsigned_of_int z : 0 <= z -> unsigned (of_int z) = true.
Proof.
  intros Hz. unfold of_int, binary_normalize.
  destruct z as [|p|p]; [reflexivity | | lia].
  unfold binary_round. destruct (shl_align _ _ _). apply unsigned_binary_round_aux.
Qed.

Lemma unsigned_mul a b : unsigned a = true -> unsigned b = true -> unsigned (mul a b) = true.
Proof.
  destruct a as [[|]|[|]| |[|] ma ea], b as [[|]|[|]| |[|] mb eb];
    try discriminate; intros _ _; try reflexivity.
  apply unsigned_binary_round_aux.
Qed.

Lemma unsigned_div a b : unsigned a = true -> unsigned b = true -> unsigned (div a b) = true.
Proof.
  destruct a as [[|]|[|]| |[|] ma ea], b as [[|]|[|]| |[|] mb eb];
    try discriminate; intros _ _; try reflexivity.
  unfold div, SFdiv. destruct (SFdiv_core_binary _ _ _ _ _ _) as [[mz ez] lz].
  apply unsigned_binary_round_aux.
Qed.

Lemma to_int_unsigned f : unsigned f = true -> 0 <= to_int f.
Proof.
  destruct f as [s|s| |s m e]; simpl; try lia.
  destruct s; [discriminate|]. intros _.
  destruct e; [lia | lia | apply Z.div_pos; lia].
Qed.

Lemma fexp_normal x : -125 <= x -> fexp prec emax x = x - 24.
Proof. intros Hx. unfold fexp, emin, prec, emax. lia. Qed.

(** A mantissa of exactly 24 digits is kept as it is. *)
Lemma binary_round_aux_exact m e :
  digits2_pos m = 24%positive -> -149 <= e <= 104 ->
  binary_round_aux prec emax false (Z.pos m) e loc_Exact = S754_finite false m e.
Proof.
  intros Hd He.
  assert (Hs : shr_fexp prec emax (Z.pos m) e loc_Exact
               = ({| shr_m := Z.pos m; shr_r := false; shr_s := false |}, e)).
  { unfold shr_fexp. simpl Zdigits2. rewrite Hd, fexp_normal by lia.
    replace (24 + e - 24 - e) with 0 by lia. reflexivity. }
  unfold binary_round_aux. rewrite Hs. cbn [shr_m loc_of_shr_record round_nearest_even].
  rewrite Hs. cbn [shr_m].
  replace (e <=? emax - prec) with true; [reflexivity|].
  symmetry. apply Z.leb_le. unfold emax, prec. lia.
Qed.

Lemma digits2_pos_iter_xO m (k : positive) :
  digits2_pos (Pos.iter xO m k) = (digits2_pos m + k)%positive.
Proof.
  revert m. induction k using Pos.peano_ind; intros m.
  - simpl. lia.
  - rewrite Pos.iter_succ. simpl. rewrite IHk. lia.
Qed.

Lemma digits2_pos_bounds m : 2 ^ (Z.pos (digits2_pos m) - 1) <= Z.pos m < 2 ^ Z.pos (digits2_pos m).
Proof.
  induction m as [m IH|m IH|]; simpl digits2_pos.
  - rewrite Pos2Z.inj_succ. replace (Z.succ (Z.pos (digits2_pos m)) - 1) with (Z.succ (Z.pos (digits2_pos m) - 1)) by lia.
    rewrite !Z.pow_succ_r by lia. lia.
  - rewrite Pos2Z.inj_succ. replace (Z.succ (Z.pos (digits2_pos m)) - 1) with (Z.succ (Z.pos (digits2_pos m) - 1)) by lia.
    rewrite !Z.pow_succ_r by lia. lia.
  - simpl. lia.
Qed.

Lemma Zpos_iter_xO m (k : positive) : Z.pos (Pos.iter xO m k) = Z.pos m * 2 ^ Z.pos k.
Proof.
  revert m. induction k using Pos.peano_ind; intros m.
  - simpl. lia.
  - rewrite Pos.iter_succ, Pos2Z.inj_succ, Z.pow_succ_r by lia.
    rewrite Pos2Z.inj_xO, IHk. lia.
Qed.

Lemma of_int_small p :
  Z.pos p < 2 ^ 24 ->
  of_int (Z.pos p) = S754_finite false (fst (norm24 p)) (snd (norm24 p))
  /\ digits2_pos (fst (norm24 p)) = 24%positive
  /\ -23 <= snd (norm24 p) <= 0
  /\ Z.pos (fst (norm24 p)) = Z.pos p * 2 ^ (- snd (norm24 p)).
Proof.
  intros Hp.
  pose proof (digits2_pos_bounds p) as Hd.
  assert (Hd24 : Z.pos (digits2_pos p) <= 24).
  { destruct (Z_le_gt_dec (Z.pos (digits2_pos p)) 24) as [|Hgt]; [assumption|].
    exfalso. assert (2 ^ 24 <= 2 ^ (Z.pos (digits2_pos p) - 1)) by (apply Z.pow_le_mono_r; lia). lia. }
  unfold of_int, binary_normalize, binary_round, shl_align, norm24.
  rewrite Z.add_0_r, fexp_normal by lia. rewrite Z.sub_0_r.
  destruct (Z.pos (digits2_pos p) - 24) as [|k|k] eqn:Hk; [| lia |].
  - cbn [fst snd]. assert (digits2_pos p = 24%positive) by lia.
    rewrite binary_round_aux_exact by (assumption || lia).
    repeat split; try assumption; try lia.
  - cbn [fst snd].
    assert (Hdk : digits2_pos (Pos.iter xO p k) = 24%positive).
    { rewrite digits2_pos_iter_xO. lia. }
    rewrite binary_round_aux_exact by (assumption || lia).
    repeat split; try assumption; try lia.
    rewrite Zpos_iter_xO. reflexivity.
Qed.

Lemma iter_pos_iter {A} (f : A -> A) n x : SpecFloat.iter_pos f n x = Pos.iter f x n.
Proof.
  revert x. induction n as [n IH|n IH|]; intros x; simpl.
  - rewrite !IH. rewrite <- !Pos.iter_swap. reflexivity.
  - rewrite !IH. reflexivity.
  - reflexivity.
Qed.

(** Shifting out zeros loses nothing. *)
Lemma shr_zeros m (k : positive) :
  SpecFloat.iter_pos shr_1 k {| shr_m := Z.pos (Pos.iter xO m k); shr_r := false; shr_s := false |}
  = {| shr_m := Z.pos m; shr_r := false; shr_s := false |}.
Proof.
  rewrite iter_pos_iter. induction k using Pos.peano_ind.
  - reflexivity.
  - rewrite Pos.iter_succ_r.
    replace (Pos.iter xO m (Pos.succ k)) with (xO (Pos.iter xO m k))
      by (symmetry; apply Pos.iter_succ).
    simpl shr_1. exact IHk.
Qed.

Lemma binary_round_aux_zeros m e (k : positive) :
  digits2_pos m = 24%positive -> -149 <= e <= 104 ->
  binary_round_aux prec emax false (Z.pos (Pos.iter xO m k)) (e - Z.pos k) loc_Exact
  = S754_finite false m e.
Proof.
  intros Hd He.
  assert (Hs : shr_fexp prec emax (Z.pos (Pos.iter xO m k)) (e - Z.pos k) loc_Exact
               = ({| shr_m := Z.pos m; shr_r := false; shr_s := false |}, e)).
  { unfold shr_fexp. simpl Zdigits2. rewrite digits2_pos_iter_xO, Hd.
    rewrite fexp_normal by lia.
    replace (Z.pos (24 + k) + (e - Z.pos k) - 24 - (e - Z.pos k)) with (Z.pos k) by lia.
    unfold shr. cbn [shr_record_of_loc]. rewrite shr_zeros. f_equal. lia. }
  assert (Hs' : shr_fexp prec emax (Z.pos m) e loc_Exact
               = ({| shr_m := Z.pos m; shr_r := false; shr_s := false |}, e)).
  { unfold shr_fexp. simpl Zdigits2. rewrite Hd, fexp_normal by lia.
    replace (24 + e - 24 - e) with 0 by lia. reflexivity. }
  unfold binary_round_aux. rewrite Hs. cbn [shr_m loc_of_shr_record round_nearest_even].
  rewrite Hs'. cbn [shr_m].
  replace (e <=? emax - prec) with true; [reflexivity|].
  symmetry. apply Z.leb_le. unfold emax, prec. lia.
Qed.

Lemma mul_one_exact m e :
  digits2_pos m = 24%positive -> -126 <= e <= 104 ->
  mul (S754_finite false m e) one = S754_finite false m e.
Proof.
  intros Hd He. unfold mul, one, SFmul. cbn [xorb].
  replace (m * 8388608)%positive with (Pos.iter xO m 23)
    by (apply Pos2Z.inj; rewrite Zpos_iter_xO; lia).
  replace (e + -23) with (e - 23) by lia.
  apply (binary_round_aux_zeros m e 23); [assumption | lia].
Qed.

Lemma div_core_one m e :
  digits2_pos m = 24%positive -> -100 <= e <= 80 ->
  SFdiv_core_binary prec emax (Z.pos m) e 8388608 (-23)
  = (Z.pos (Pos.iter xO m 1), e - 1, loc_Exact).
Proof.
  intros Hd He. unfold SFdiv_core_binary.
  change (Zdigits2 (Z.pos m)) with (Z.pos (digits2_pos m)). rewrite Hd.
  change (Zdigits2 8388608) with 24.
  rewrite fexp_normal by lia.
  replace (Z.min (24 + e - (24 + -23) - 24) (e - -23)) with (e - 1) by lia.
  replace (e - -23 - (e - 1)) with 24 by lia.
  rewrite Z.shiftl_mul_pow2 by lia.
  pose proof (Z.div_eucl_eq (Z.pos m * 2 ^ 24) 8388608 ltac:(lia)) as Heq.
  pose proof (Z.mod_pos_bound (Z.pos m * 2 ^ 24) 8388608 ltac:(lia)) as Hb.
  unfold Z.modulo in Hb.
  destruct (Z.div_eucl (Z.pos m * 2 ^ 24) 8388608) as [q r].
  change (2 ^ 24) with (2 * 8388608) in Heq.
  assert (q = 2 * Z.pos m) by nia. assert (r = 0) by nia. subst. reflexivity.
Qed.

Lemma div_one_exact m e :
  digits2_pos m = 24%positive -> -100 <= e <= 80 ->
  div (S754_finite false m e) one = S754_finite false m e.
Proof.
  intros Hd He. unfold div, one, SFdiv. cbn [xorb].
  rewrite div_core_one by assumption.
  apply (binary_round_aux_zeros m e 1); [assumption | lia].
Qed.

Lemma to_int_small p :
  Z.pos p < 2 ^ 24 ->
  to_int (S754_finite false (fst (norm24 p)) (snd (norm24 p))) = Z.pos p.
Proof.
  intros Hp. destruct (of_int_small p Hp) as (_ & _ & He & Hm).
  unfold to_int. rewrite Hm.
  destruct (snd (norm24 p)) as [|k|k] eqn:Hk; [simpl; lia | lia |].
  change (- Z.neg k) with (Z.pos k). apply Z.div_mul. lia.
Qed.

(** Integers below 2^24 go through [float] unharmed. *)
Lemma to_int_mul_one z : 0 <= z < 2 ^ 24 -> to_int (mul (of_int z) one) = z.
Proof.
  intros Hz. destruct z as [|p|p]; [reflexivity | | lia].
  destruct (of_int_small p (proj2 Hz)) as (-> & Hd & He & _).
  rewrite mul_one_exact by (assumption || lia). apply to_int_small. lia.
Qed.

Lemma to_int_div_one z : 0 <= z < 2 ^ 24 -> to_int (div (of_int z) one) = z.
Proof.
  intros Hz. destruct z as [|p|p]; [reflexivity | | lia].
  destruct (of_int_small p (proj2 Hz)) as (-> & Hd & He & _).
  rewrite div_one_exact by (assumption || lia). apply to_int_small. lia.
Qed.

(** ** The size and the sampling of [load_and_process_image] *)

Lemma for_range_ind {S : Type} (P : Z -> S -> Prop) lo hi (body : Z -> S -> S) s :
  lo <= hi ->
  P lo s ->
  (forall i s', lo <= i < hi -> P i s' -> P (i + 1) (body i s')) ->
  P hi (for_range lo hi body s).
Proof.
  intros Hle Hs Hstep.
  assert (Hgen : forall n : nat, lo + Z.of_nat n <= hi ->
            P (lo + Z.of_nat n) (for_iter n lo body s)).
  { intros n. induction n as [|n IH]; intros Hn.
    - simpl. rewrite Z.add_0_r. exact Hs.
    - rewrite for_iter_last.
      replace (lo + Z.of_nat (Datatypes.S n)) with (lo + Z.of_nat n + 1) by lia.
      apply Hstep; [lia|]. apply IH. lia. }
  unfold for_range.
  replace hi with (lo + Z.of_nat (Z.to_nat (hi - lo))) at 1 by lia.
  apply Hgen. lia.
Qed.

(** Filling a vector cell by cell, row after row, yields the raster. *)
Lemma fill_raster {A : Type} `{Inhabited A} (f : Z -> Z -> A) width height
    (init : list A) :
  0 <= width -> 0 <= height ->
  length init = Z.to_nat (height * width) ->
  for_range 0 height
    (fun y v => for_range 0 width (fun x v' => vset v' (y * width + x) (f x y)) v)
    init
  = raster width height f.
Proof.
  intros Hw Hh Hlen. symmetry.
  set (filled := fun (Y X : Z) (v : list A) =>
         length v = Z.to_nat (height * width)
         /\ forall x y, 0 <= x < width -> 0 <= y < height -> visited Y X y x ->
                        vget v (y * width + x) = f x y).
  assert (Hfinal : filled height 0
            (for_range 0 height
               (fun y v => for_range 0 width
                             (fun x v' => vset v' (y * width + x) (f x y)) v) init)).
  { apply (for_range_ind (fun Y v => filled Y 0 v)); [lia | |].
    - split; [exact Hlen|]. intros x y Hx Hy Hv. unfold visited in Hv. lia.
    - intros Y v HY Hv.
      assert (Hrow : filled Y width
                (for_range 0 width (fun x v' => vset v' (Y * width + x) (f x Y)) v)).
      { apply (for_range_ind (fun X v' => filled Y X v')); [lia | exact Hv |].
        intros X v' HX [Hl Hc]. split; [rewrite length_vset; exact Hl|].
        intros x y Hx Hy Hvis. rewrite vget_vset.
        destruct (decide _) as [[Heq _]|Hne].
        - assert (y = Y) by nia. subst y. f_equal. lia.
        - apply Hc; try assumption. unfold visited in *.
          destruct (Z.eq_dec y Y) as [->|]; [|lia].
          destruct (Z.eq_dec x X) as [->|]; [|lia].
          exfalso. apply Hne. split; [reflexivity|]. rewrite Hl. nia. }
      destruct Hrow as [Hl Hc]. split; [exact Hl|].
      intros x y Hx Hy Hvis. apply Hc; try assumption. unfold visited in *. lia. }
  destruct Hfinal as [Hl Hc].
  apply raster_eq; [exact Hw | exact Hh | exact Hl |].
  intros x y Hx Hy.
  rewrite <- (Hc x y Hx Hy) by (unfold visited; lia).
  unfold vget. destruct (Z.ltb_spec (y * width + x) 0); [nia|].
  apply list_lookup_lookup_total_lt. rewrite Hl. nia.
Qed.

Lemma unsigned_image_scale width max_width :
  0 <= width -> 0 <= max_width -> unsigned (image_scale width max_width) = true.
Proof.
  intros Hw Hm. unfold image_scale. destruct (max_width <? width); [|reflexivity].
  apply unsigned_div; apply unsigned_of_int; assumption.
Qed.

Lemma scaled_size_nonneg width height max_width :
  0 <= width -> 0 <= height -> 0 <= max_width ->
  8 <= fst (scaled_size width height max_width)
  /\ fst (scaled_size width height max_width) mod 8 = 0
  /\ 0 <= snd (scaled_size width height max_width).
Proof.
  intros Hw Hh Hm. unfold scaled_size. cbn [fst snd].
  pose proof (unsigned_image_scale width max_width Hw Hm) as Hs.
  pose proof (to_int_unsigned _ (unsigned_mul _ _ (unsigned_of_int width Hw) Hs)) as Hsw.
  pose proof (to_int_unsigned _ (unsigned_mul _ _ (unsigned_of_int height Hh) Hs)) as Hsh.
  split; [|split; [|exact Hsh]];
    destruct (Z.eqb_spec (to_int (mul (of_int width) (image_scale width max_width)) ÷ 8 * 8) 0);
    zquot.
Qed.

Lemma scaled_size_fits width height max_width :
  0 <= width <= max_width -> width < 2 ^ 24 -> 0 <= height < 2 ^ 24 ->
  scaled_size width height max_width
  = (if width ÷ 8 * 8 =? 0 then 8 else width ÷ 8 * 8, height).
Proof.
  intros Hw Hw24 Hh. unfold scaled_size, image_scale.
  destruct (Z.ltb_spec max_width width); [lia|].
  rewrite !to_int_mul_one by lia. reflexivity.
Qed.

Lemma source_coord_range scale x size :
  unsigned scale = true -> 0 <= x -> 1 <= size ->
  0 <= source_coord scale x size <= size - 1.
Proof.
  intros Hs Hx Hsize. unfold source_coord.
  pose proof (to_int_unsigned _ (unsigned_div _ _ (unsigned_of_int x Hx) Hs)). lia.
Qed.

Lemma source_coord_one x size :
  0 <= x < size -> x < 2 ^ 24 -> source_coord one x size = x.
Proof.
  intros Hx H24. unfold source_coord. rewrite to_int_div_one by lia. lia.
Qed.

Section resample_lemmas.
Variable powf : float -> float -> float.

Lemma resample_raster img_data width height channels max_width :
  0 <= width -> 0 <= height -> 0 <= max_width ->
  resample powf img_data width height channels max_width
  = raster (fst (scaled_size width height max_width))
      (snd (scaled_size width height max_width))
      (sample_gray powf img_data width height channels
         (image_scale width max_width)).
Proof.
  intros Hw Hh Hm.
  destruct (scaled_size_nonneg width height max_width Hw Hh Hm) as (Hsw & _ & Hsh).
  unfold resample. destruct (scaled_size width height max_width) as [sw sh].
  cbn [fst snd] in *. unfold fill_row.
  apply (fill_raster (sample_gray powf img_data width height channels
                        (image_scale width max_width)));
    [lia | lia |].
  rewrite length_vfill. f_equal. lia.
Qed.

End resample_lemmas.

(** ** The ditherer looks back only *)

Lemma agree_below_diffuse K v v' i error k :
  agree_below K v v' ->
  agree_below K (diffuse v i error k) (diffuse v' i error k).
Proof.
  intros [Hlen Hag]. unfold diffuse. split.
  - rewrite !length_vset. exact Hlen.
  - intros j Hj. rewrite !vget_vset, <- Hlen.
    destruct (decide _) as [[-> _]|_]; [|apply Hag; exact Hj].
    rewrite (Hag j Hj). reflexivity.
Qed.

Lemma agree_below_dither_pixel K width height y x fr fr' :
  0 <= y * width + x < K ->
  agree_below K (working_copy fr) (working_copy fr') ->
  agree_below K (working_copy (dither_pixel width height y x fr))
                (working_copy (dither_pixel width height y x fr')).
Proof.
  intros Hidx Hag. unfold dither_pixel. cbv zeta. cbn [working_copy].
  rewrite <- (proj2 Hag _ Hidx).
  destruct (x + 1 <? width), (y + 1 <? height), (0 <? x);
    repeat apply agree_below_diffuse; exact Hag.
Qed.

Section causality.
Variables (g g' : list float) (width height x0 y0 : Z).
Hypothesis width_nonneg : 0 <= width.
Hypothesis x0_range : 0 <= x0 < width.
Hypothesis y0_range : 0 <= y0 < height.
Hypothesis same_past : agree_below (y0 * width + x0 + 1) g g'.

Lemma agree_below_frame_at y x :
  0 <= y <= height -> 0 <= x <= width -> (y = height -> x = 0) ->
  y < y0 \/ (y = y0 /\ x <= x0) ->
  agree_below (y0 * width + x0 + 1)
    (working_copy (frame_at g width height y x))
    (working_copy (frame_at g' width height y x)).
Proof.
  apply (scan_ind width height
           (fun y x => y < y0 \/ (y = y0 /\ x <= x0) ->
              agree_below (y0 * width + x0 + 1)
                (working_copy (frame_at g width height y x))
                (working_copy (frame_at g' width height y x))));
    [exact width_nonneg | | | ].
  - intros _. rewrite !frame_at_origin. exact same_past.
  - intros Y X HY HX IH Hpos. rewrite !frame_at_next by lia.
    apply agree_below_dither_pixel; [nia | apply IH; lia].
  - intros Y HY IH Hpos. rewrite !frame_at_row by lia. apply IH. lia.
Qed.

Lemma black_at_same_past :
  black_at g width height x0 y0 = black_at g' width height x0 y0.
Proof.
  unfold black_at.
  rewrite (proj2 (agree_below_frame_at y0 x0 ltac:(lia) ltac:(lia) ltac:(lia)
                    ltac:(lia)) (y0 * width + x0) ltac:(nia)).
  reflexivity.
Qed.

End causality.

(** ** Gray levels before the gamma curve *)

Lemma forallb_seqZ (f : Z -> bool) n v :
  forallb f (seqZ 0 n) = true -> 0 <= v < n -> f v = true.
Proof.
  intros Hall Hv. rewrite forallb_forall in Hall. apply Hall.
  apply list_elem_of_In, elem_of_seqZ. lia.
Qed.

(** [<] on floats is transitive. *)
Lemma ltb_trans a b c : ltb a b = true -> ltb b c = true -> ltb a c = true.
Proof.
  unfold ltb, SFltb, SFcompare.
  destruct a as [sa|sa| |sa ma ea], b as [sb|sb| |sb mb eb], c as [sc|sc| |sc mc ec];
    try destruct sa; try destruct sb; try destruct sc;
    try discriminate; try reflexivity;
    destruct (Z.compare_spec ea eb), (Z.compare_spec eb ec), (Z.compare_spec ea ec);
    try discriminate; try reflexivity; try lia; subst;
    rewrite ?Pos.compare_cont_spec; unfold Pos.switch_Eq;
    destruct (Pos.compare_spec ma mb), (Pos.compare_spec mb mc), (Pos.compare_spec ma mc);
    simpl; try discriminate; try reflexivity; lia.
Qed.

Lemma gamma_base_gray_step v :
  0 <= v < 255 ->
  ltb (gamma_base v v v) (gamma_base (v + 1) (v + 1) (v + 1)) = true.
Proof.
  apply (forallb_seqZ
           (fun v => ltb (gamma_base v v v) (gamma_base (v + 1) (v + 1) (v + 1))) 255).
  vm_compute. reflexivity.
Qed.

Lemma gamma_base_gray_range v :
  0 <= v < 256 ->
  leb zero (gamma_base v v v) && leb (gamma_base v v v) one = true.
Proof.
  apply (forallb_seqZ
           (fun v => leb zero (gamma_base v v v) && leb (gamma_base v v v) one) 256).
  vm_compute. reflexivity.
Qed.

Lemma gamma_base_gray_increasing v v' :
  0 <= v -> v < v' -> v' <= 255 ->
  ltb (gamma_base v v v) (gamma_base v' v' v') = true.
Proof.
  intros Hv Hlt Hv'.
  replace v' with (v + 1 + Z.of_nat (Z.to_nat (v' - v - 1))) in * by lia.
  induction (Z.to_nat (v' - v - 1)) as [|n IH].
  - rewrite Z.add_0_r. apply gamma_base_gray_step. lia.
  - apply (ltb_trans _ (gamma_base (v + 1 + Z.of_nat n) (v + 1 + Z.of_nat n)
                          (v + 1 + Z.of_nat n))); [apply IH; lia|].
    replace (v + 1 + Z.of_nat (Datatypes.S n)) with (v + 1 + Z.of_nat n + 1) by lia.
    apply gamma_base_gray_step. lia.
Qed.

(** ** The command encoder *)

Lemma write_bytes_up data d :
  Printer.link_up d = true ->
  Printer.write_bytes data d
  = Some (u16 (Z.of_nat (length data)),
          {| Printer.link_up := true; Printer.wire := Printer.wire d ++ data |}).
Proof. intros Hup. unfold Printer.write_bytes. rewrite Hup. reflexivity. Qed.

Lemma write_bytes_down data d :
  Printer.link_up d = false -> Printer.write_bytes data d = None.
Proof. intros Hdown. unfold Printer.write_bytes. rewrite Hdown. reflexivity. Qed.

Lemma testbit_u8 z j :
  0 <= j -> Z.testbit (u8 z) j = (j <? 8) && Z.testbit z j.
Proof.
  intros Hj. unfold u8. change 256 with (2 ^ 8).
  destruct (Z.ltb_spec j 8).
  - rewrite Z.mod_pow2_bits_low by lia. reflexivity.
  - rewrite Z.mod_pow2_bits_high by lia. reflexivity.
Qed.

Lemma testbit_mask (k j : Z) : 0 <= k -> 0 <= j -> Z.testbit (2 ^ k) j = (j =? k).
Proof.
  intros Hk Hj. destruct (Z.eqb_spec j k) as [->|Hne].
  - apply Z.pow2_bits_true. lia.
  - apply Z.pow2_bits_false. lia.
Qed.

(** ** The text of [print_text.cpp] *)

Lemma strip_newline_text_sent input :
  strip_newline input ++ [10; 10] = text_sent input.
Proof.
  unfold text_sent, ends_in_newline.
  induction input as [|c rest IH]; [reflexivity|].
  destruct rest as [|c' rest'].
  - simpl. destruct (Z.eqb_spec c 10) as [->|]; reflexivity.
  - change (strip_newline (c :: c' :: rest')) with (c :: strip_newline (c' :: rest')).
    rewrite last_cons_cons, <- (app_comm_cons _ _ c), <- (app_comm_cons (c' :: rest') _ c).
    f_equal. exact IH.
Qed.

Lemma take_line_shorter c input :
  (length (snd (take_line (c :: input))) <= length input)%nat.
Proof.
  revert c. induction input as [|c' rest IH]; intros c.
  - simpl. destruct (c =? 10); simpl; lia.
  - change (take_line (c :: c' :: rest))
      with (if c =? 10 then ([], c' :: rest)
            else let '(line, rest') := take_line (c' :: rest) in (c :: line, rest')).
    destruct (c =? 10); [simpl; lia|].
    specialize (IH c'). destruct (take_line (c' :: rest)) as [line rest'].
    simpl in *. lia.
Qed.

(** What one call of [getline] leaves to be said about the text. *)
Lemma strip_newline_take_line c input :
  strip_newline (c :: input)
  = fst (take_line (c :: input))
    ++ match snd (take_line (c :: input)) with
       | [] => []
       | rest => 10 :: strip_newline rest
       end.
Proof.
  revert c. induction input as [|c' rest IH]; intros c.
  - simpl. destruct (c =? 10); reflexivity.
  - change (strip_newline (c :: c' :: rest)) with (c :: strip_newline (c' :: rest)).
    change (take_line (c :: c' :: rest))
      with (if c =? 10 then ([], c' :: rest)
            else let '(line, rest') := take_line (c' :: rest) in (c :: line, rest')).
    destruct (Z.eqb_spec c 10) as [->|Hc]; [reflexivity|].
    rewrite (IH c'). destruct (take_line (c' :: rest)) as [line rest']. reflexivity.
Qed.

Lemma print_lines_up fuel first_line input d :
  Printer.link_up d = true -> (length input < fuel)%nat ->
  print_lines fuel first_line input d
  = Some (tt, {| Printer.link_up := true;
                 Printer.wire :=
                   Printer.wire d
                   ++ match input with
                      | [] => []
                      | _ => (if first_line then [] else [10]) ++ strip_newline input
                      end |}).
Proof.
  revert first_line input d.
  induction fuel as [|fuel IH]; intros first_line input d Hup Hfuel; [lia|].
  destruct input as [|c input].
  - simpl. unfold Printer.ret. rewrite app_nil_r.
    destruct d; simpl in *; subst. reflexivity.
  - cbn [print_lines getline].
    pose proof (take_line_shorter c input) as Hshort.
    rewrite (strip_newline_take_line c input).
    destruct (take_line (c :: input)) as [line rest]. cbn [fst snd] in *.
    assert (Hrest : (length rest < fuel)%nat) by (simpl in Hfuel; lia).
    unfold Printer.bind, Printer.write_string.
    destruct first_line.
    + unfold Printer.ret at 1. rewrite write_bytes_up by exact Hup.
      rewrite IH by (reflexivity || exact Hrest). cbn [Printer.wire].
      do 3 f_equal. rewrite <- app_assoc. f_equal.
      destruct rest; [rewrite app_nil_r|]; reflexivity.
    + rewrite write_bytes_up by exact Hup.
      rewrite write_bytes_up by reflexivity.
      rewrite IH by (reflexivity || exact Hrest). cbn [Printer.wire].
      do 3 f_equal. rewrite <- !app_assoc. do 2 f_equal.
      destruct rest; [rewrite app_nil_r|]; reflexivity.
Qed.

Lemma print_lines_down fuel first_line input d :
  Printer.link_up d = false -> input <> [] ->
  print_lines (Datatypes.S fuel) first_line input d = None.
Proof.
  intros Hdown Hin. destruct input as [|c input]; [congruence|].
  cbn [print_lines getline]. destruct (take_line (c :: input)) as [line rest].
  unfold Printer.bind, Printer.write_string.
  destruct first_line.
  - unfold Printer.ret at 1. rewrite write_bytes_down by exact Hdown. reflexivity.
  - rewrite write_bytes_down by exact Hdown. reflexivity.
Qed.

(** ** The options of [print_text.cpp] *)

(** One option: what it does to each setting. *)
Lemma apply_option_ready s opt arg s' :
  apply_option s opt arg = Ready s' ->
  opt_bold s' = opt_bold s || (opt =? char_b)
  /\ opt_underline s' = opt_underline s || (opt =? char_u)
  /\ opt_double_width s' = opt_double_width s || (opt =? char_w) || (opt =? char_L)
  /\ opt_double_height s' = opt_double_height s || (opt =? char_t) || (opt =? char_L)
  /\ opt_alignment s' = default (opt_alignment s) (alignment_of (opt, arg))
  /\ opt_feed_lines s' = default (opt_feed_lines s) (feed_of (opt, arg))
  /\ keeps_going opt = true.
Proof.
  unfold apply_option, alignment_of, feed_of, keeps_going. cbn [fst snd].
  repeat match goal with
         | |- context [opt =? ?c] =>
             destruct (Z.eqb_spec opt c) as [->|?];
             [try destruct arg; intros Heq; cbn in Heq;
              first [discriminate Heq
                    | injection Heq as <-; cbn; rewrite ?orb_true_r, ?orb_false_r;
                      repeat split; reflexivity]|]
         end.
  discriminate.
Qed.

Lemma apply_option_stop s opt arg :
  keeps_going opt = false ->
  apply_option s opt arg = Return (if opt =? char_h then 0 else 1).
Proof.
  unfold apply_option, keeps_going. rewrite !orb_false_iff.
  intros ((((((((-> & ->) & ->) & ->) & ->) & ->) & ->) & ->) & ->).
  destruct (opt =? char_h); reflexivity.
Qed.

(** Parsing one list after another. *)
Lemma parse_options_app pre post s :
  parse_options (pre ++ post) s
  = match parse_options pre s with
    | Ready s' => parse_options post s'
    | stop => stop
    end.
Proof.
  revert s. induction pre as [|[opt arg] pre IH]; intros s; [reflexivity|].
  simpl. destruct (apply_option s opt arg); [apply IH | reflexivity | reflexivity].
Qed.

Lemma parse_options_ready opts s s' :
  parse_options opts s = Ready s' ->
  (opt_bold s' = true <-> opt_bold s = true \/ given char_b opts)
  /\ (opt_underline s' = true <-> opt_underline s = true \/ given char_u opts)
  /\ (opt_double_width s' = true <->
      opt_double_width s = true \/ given char_w opts \/ given char_L opts)
  /\ (opt_double_height s' = true <->
      opt_double_height s = true \/ given char_t opts \/ given char_L opts)
  /\ opt_alignment s' = default (opt_alignment s) (last (omap alignment_of opts))
  /\ opt_feed_lines s' = default (opt_feed_lines s) (last (omap feed_of opts))
  /\ forallb keeps_going opts.*1 = true.
Proof.
  unfold given. revert s. induction opts as [|[opt arg] opts IH]; intros s Hp.
  - injection Hp as <-. rewrite fmap_nil.
    repeat split; try tauto; intros [?|H]; try assumption;
      repeat match goal with
             | H : _ \/ _ |- _ => destruct H
             | H : _ ∈ [] |- _ => apply elem_of_nil in H; contradiction
             end.
  - simpl in Hp. destruct (apply_option s opt arg) as [s1| |] eqn:Hstep;
      try discriminate.
    destruct (apply_option_ready _ _ _ _ Hstep)
      as (Hb & Hu & Hw & Hh & Ha & Hf & Hk).
    destruct (IH s1 Hp) as (Ib & Iu & Iw & Ih & Ia & If & Ik).
    rewrite fmap_cons. cbn [fst forallb]. rewrite Hk, Ik.
    rewrite Ib, Iu, Iw, Ih, Hb, Hu, Hw, Hh.
    rewrite !orb_true_iff, !Z.eqb_eq, !elem_of_cons.
    repeat split; try tauto; try (intuition congruence).
    + rewrite Ia, Ha.
      change (omap alignment_of ((opt, arg) :: opts))
        with (match alignment_of (opt, arg) with
              | Some a => a :: omap alignment_of opts
              | None => omap alignment_of opts
              end).
      unfold default.
      destruct (alignment_of (opt, arg)) as [a|]; [|reflexivity].
      rewrite last_cons. destruct (last (omap alignment_of opts)); reflexivity.
    + rewrite If, Hf.
      change (omap feed_of ((opt, arg) :: opts))
        with (match feed_of (opt, arg) with
              | Some n => n :: omap feed_of opts
              | None => omap feed_of opts
              end).
      unfold default.
      destruct (feed_of (opt, arg)) as [n|]; [|reflexivity].
      rewrite last_cons. destruct (last (omap feed_of opts)); reflexivity.
Qed.

Lemma text_format_bits b u w h :
  Z.testbit (text_format b u w h) 3 = b
  /\ Z.testbit (text_format b u w h) 7 = u
  /\ Z.testbit (text_format b u w h) 5 = w
  /\ Z.testbit (text_format b u w h) 4 = h.
Proof. destruct b, u, w, h; repeat split; reflexivity. Qed.

(** ** Opening and releasing the device *)

Lemma filter_descriptors c (log : list UsbCall) :
  Forall is_descriptor log -> ~ is_descriptor c ->
  filter (fun c' => c' = c) log = [].
Proof.
  intros Hlog Hc. induction Hlog as [|c' log Hc' _ IH]; [reflexivity|].
  rewrite filter_cons. destruct (decide (c' = c)) as [->|_]; [contradiction | exact IH].
Qed.

Lemma find_target_spec devices i0 log target :
  find_target devices i0 = (log, target) ->
  Forall is_descriptor log
  /\ match target with
     | Some i =>
         (i0 <= i)%nat
         /\ devices !! (i - i0)%nat = Some target_ids
         /\ forall j, (j < i - i0)%nat -> devices !! j <> Some target_ids
     | None => forall j, devices !! j <> Some target_ids
     end.
Proof.
  revert i0 log target.
  induction devices as [|[vendor product] rest IH]; intros i0 log target Hf.
  - injection Hf as <- <-. split; [constructor|]. intros j. rewrite lookup_nil. discriminate.
  - simpl in Hf.
    destruct ((vendor =? USB_VENDOR) && (product =? USB_PRODUCT)) eqn:Hm.
    + injection Hf as <- <-. apply andb_true_iff in Hm. destruct Hm as [Hv Hp].
      apply Z.eqb_eq in Hv, Hp. subst.
      split; [repeat constructor|]. split; [lia|].
      rewrite Nat.sub_diag. split; [reflexivity|]. intros j Hj. lia.
    + destruct (find_target rest (Datatypes.S i0)) as [log' target'] eqn:Hrec.
      injection Hf as <- <-.
      destruct (IH _ _ _ Hrec) as [Hlog Ht].
      assert (Hhead : (vendor, product) <> target_ids).
      { intros [= -> ->]. unfold USB_VENDOR, USB_PRODUCT in Hm.
        rewrite !Z.eqb_refl in Hm. discriminate. }
      split; [constructor; [exact I | exact Hlog]|].
      destruct target' as [i|].
      * destruct Ht as (Hle & Hi & Hfirst). split; [lia|].
        replace (i - i0)%nat with (Datatypes.S (i - Datatypes.S i0)) by lia.
        split; [exact Hi|].
        intros [|j] Hj; simpl; [congruence|]. apply Hfirst. lia.
      * intros [|j]; simpl; [congruence | apply Ht].
Qed.

Lemma cleanup_null p : ctx (cleanup p) = false /\ dev_handle (cleanup p) = false.
Proof. unfold cleanup. destruct p as [[|] [|] log]; split; reflexivity. Qed.

Lemma cleanup_nothing_held p :
  ctx p = false -> dev_handle p = false -> cleanup p = p.
Proof. destruct p as [c h log]. simpl. intros -> ->. reflexivity. Qed.

(** Counting calls in the logs [open_usb] builds. *)
Ltac count_calls Hlog :=
  unfold made; cbn [calls cleanup ctx dev_handle];
  repeat first [rewrite filter_app | rewrite filter_cons];
  rewrite ?(filter_descriptors _ _ Hlog) by (simpl; tauto);
  reflexivity.

(** * Further properties of the code *)

(** X1.  Whatever the image and the limit, the width
    [load_and_process_image] settles on is a multiple of 8 and at least
    8, and the height is not negative. *)
Theorem scaled_size_aligned width height max_width :
  0 <= width -> 0 <= height -> 0 <= max_width ->
  int_defined (mul (of_int width) (image_scale width max_width)) = true ->
  int_defined (mul (of_int height) (image_scale width max_width)) = true ->
  8 <= fst (scaled_size width height max_width)
  /\ fst (scaled_size width height max_width) mod 8 = 0
  /\ 0 <= snd (scaled_size width height max_width).
Proof. intros Hw Hh Hm _ _. apply scaled_size_nonneg; assumption. Qed.

Lemma scaled_size_aligned_witness :
  8 <= fst (scaled_size 1000 3 384)
  /\ fst (scaled_size 1000 3 384) mod 8 = 0
  /\ 0 <= snd (scaled_size 1000 3 384).
Proof.
  apply (scaled_size_aligned 1000 3 384); [lia | lia | lia | reflexivity | reflexivity].
Defined.

(** X2.  An image that is not wider than the limit is not scaled: it
    keeps its height, and its width is rounded down to a multiple of 8,
    or is 8 when it is narrower than that. *)
Theorem scaled_size_unscaled width height max_width :
  0 <= width <= max_width -> width < 2 ^ 24 -> 0 <= height < 2 ^ 24 ->
  scaled_size width height max_width
  = (if width <? 8 then 8 else width / 8 * 8, height).
Proof.
  intros Hw Hw24 Hh. rewrite scaled_size_fits by assumption. f_equal.
  replace (width ÷ 8) with (width / 8) by zquot.
  destruct (Z.eqb_spec (width / 8 * 8) 0), (Z.ltb_spec width 8);
    try reflexivity; zquot.
Qed.

Lemma scaled_size_unscaled_witness :
  scaled_size 300 200 384 = (if 300 <? 8 then 8 else 300 / 8 * 8, 200).
Proof. apply (scaled_size_unscaled 300 200 384); lia. Defined.

(** X3.  The bytes read for a destination pixel lie inside the decoded
    image: the index is not negative and a whole pixel of [channels]
    bytes fits between it and the end of the buffer. *)
Theorem source_index_in_bounds width height channels max_width x y :
  1 <= width -> 1 <= height -> 1 <= channels -> 0 <= max_width ->
  0 <= x -> 0 <= y ->
  int_defined (div (of_int x) (image_scale width max_width)) = true ->
  int_defined (div (of_int y) (image_scale width max_width)) = true ->
  0 <= source_index (image_scale width max_width) width height channels x y
  /\ source_index (image_scale width max_width) width height channels x y + channels
     <= width * height * channels.
Proof.
  intros Hw Hh Hc Hm Hx Hy _ _.
  pose proof (unsigned_image_scale width max_width ltac:(lia) Hm) as Hs.
  pose proof (source_coord_range _ x width Hs Hx Hw) as Hsx.
  pose proof (source_coord_range _ y height Hs Hy Hh) as Hsy.
  unfold source_index.
  set (sx := source_coord (image_scale width max_width) x width) in *.
  set (sy := source_coord (image_scale width max_width) y height) in *.
  assert (Hpix : 0 <= sy * width + sx <= width * height - 1) by nia.
  split; nia.
Qed.

Lemma source_index_in_bounds_witness :
  0 <= source_index (image_scale 1000 384) 1000 700 3 383 268
  /\ source_index (image_scale 1000 384) 1000 700 3 383 268 + 3 <= 1000 * 700 * 3.
Proof.
  apply (source_index_in_bounds 1000 700 3 384 383 268);
    [lia | lia | lia | lia | lia | lia | reflexivity | reflexivity].
Defined.

Section load_properties.
Variable powf : float -> float -> float.

(** X4.  When the loops of [load_and_process_image] are left, [grayscale]
    is the raster of the sampled luminances: every cell holds the sample
    of its own pixel, and none is left at its initial zero. *)
Theorem resample_is_raster img_data width height channels max_width :
  0 <= width -> 0 <= height -> 0 <= max_width ->
  resample powf img_data width height channels max_width
  = raster (fst (scaled_size width height max_width))
      (snd (scaled_size width height max_width))
      (sample_gray powf img_data width height channels
         (image_scale width max_width)).
Proof. apply resample_raster. Qed.

(** X5.  An image at least 8 pixels wide that fits the limit is sampled
    pixel for pixel: cell [(x, y)] is the luminance of source pixel
    [(x, y)]; only the columns past the last multiple of 8 are cut. *)
Theorem resample_unscaled img_data width height channels max_width :
  8 <= width <= max_width -> width < 2 ^ 24 -> 0 <= height < 2 ^ 24 ->
  resample powf img_data width height channels max_width
  = raster (width / 8 * 8) height
      (fun x y =>
         let '(r, g, b) := pixel_rgb img_data channels ((y * width + x) * channels) in
         rgb_to_gray powf r g b).
Proof.
  intros Hw Hw24 Hh.
  rewrite resample_raster by lia. rewrite scaled_size_fits by lia. cbn [fst snd].
  replace (width ÷ 8) with (width / 8) by zquot.
  destruct (Z.eqb_spec (width / 8 * 8) 0) as [H0|_]; [zquot|].
  apply raster_ext; [zquot | lia |].
  intros x y Hx Hy. unfold sample_gray, source_index, image_scale.
  destruct (Z.ltb_spec max_width width); [lia|].
  rewrite !source_coord_one by zquot. reflexivity.
Qed.

(** X6.  The bitmap [load_and_process_image] hands back has exactly
    [out_width / 8] bytes for each of its [out_height] rows, with
    [out_width] a multiple of 8. *)
Theorem load_and_process_image_size img_data width height channels max_width :
  0 <= width -> 0 <= height -> 0 <= max_width ->
  let result := load_and_process_image powf img_data width height channels max_width in
  let out_width := snd (fst result) in
  let out_height := snd result in
  (out_width, out_height) = scaled_size width height max_width
  /\ out_width mod 8 = 0
  /\ length (fst (fst result)) = Z.to_nat (out_width / 8 * out_height).
Proof.
  intros Hw Hh Hm.
  destruct (scaled_size_nonneg width height max_width Hw Hh Hm) as (Hsw & H8 & Hsh).
  unfold load_and_process_image.
  destruct (scaled_size width height max_width) as [sw sh]. cbn [fst snd] in *.
  split; [reflexivity|]. split; [exact H8|].
  rewrite length_dither_image. f_equal. f_equal. zquot.
Qed.

End load_properties.

Lemma resample_is_raster_witness :
  resample (fun x _ => x) [10; 20; 30] 3 1 1 384
  = raster (fst (scaled_size 3 1 384)) (snd (scaled_size 3 1 384))
      (sample_gray (fun x _ => x) [10; 20; 30] 3 1 1 (image_scale 3 384)).
Proof. apply (resample_is_raster (fun x _ => x) [10; 20; 30] 3 1 1 384); lia. Defined.

Lemma resample_unscaled_witness :
  resample (fun x _ => x) (vfill 18 200) 9 2 1 384
  = raster (9 / 8 * 8) 2
      (fun x y =>
         let '(r, g, b) := pixel_rgb (vfill 18 200) 1 ((y * 9 + x) * 1) in
         rgb_to_gray (fun x _ => x) r g b).
Proof. apply (resample_unscaled (fun x _ => x) (vfill 18 200) 9 2 1 384); lia. Defined.

Lemma load_and_process_image_size_witness :
  let result := load_and_process_image (fun x _ => x) (vfill 18 200) 9 2 1 384 in
  (snd (fst result), snd result) = scaled_size 9 2 384
  /\ snd (fst result) mod 8 = 0
  /\ length (fst (fst result)) = Z.to_nat (snd (fst result) / 8 * snd result).
Proof.
  apply (load_and_process_image_size (fun x _ => x) (vfill 18 200) 9 2 1 384); lia.
Defined.

(** X7.  A raster whose samples are all 0.0 or 1.0 is reproduced as it
    is: a pixel is printed black exactly when its sample is 0.0, and no
    error reaches any other sample. *)
Theorem dither_binary_unchanged g width height :
  Forall binary g -> 0 <= width -> 0 <= height ->
  (forall x y, 0 <= x < width -> 0 <= y < height ->
     packed_bit (dither_image g width height) ((width + 7) / 8) x y = true
     <-> vget g (y * width + x) = zero)
  /\ working_copy (dither_run g width height) = g.
Proof.
  intros Hg Hw Hh. split; [|apply working_copy_dither_run; exact Hg].
  intros x y Hx Hy. replace ((width + 7) / 8) with ((width + 7) ÷ 8) by zquot.
  rewrite packed_bit_dither_image by assumption.
  apply black_at_binary. exact Hg.
Qed.

Lemma dither_binary_unchanged_witness :
  working_copy (dither_run [zero; one; one; zero; one; zero] 3 2)
  = [zero; one; one; zero; one; zero].
Proof.
  apply (dither_binary_unchanged [zero; one; one; zero; one; zero] 3 2); [|lia|lia].
  repeat constructor; reflexivity.
Defined.

(** X8.  The dither is one forward pass: the bit of a pixel depends on
    the samples up to that pixel in scan order only.  Two rasters of one
    size that agree up to pixel [(x, y)] give it the same bit. *)
Theorem dither_looks_back_only g g' width height x y :
  0 <= width -> 0 <= x < width -> 0 <= y < height ->
  agree_below (y * width + x + 1) g g' ->
  black_at g width height x y = black_at g' width height x y
  /\ packed_bit (dither_image g width height) ((width + 7) / 8) x y
     = packed_bit (dither_image g' width height) ((width + 7) / 8) x y.
Proof.
  intros Hw Hx Hy Hag.
  pose proof (black_at_same_past g g' width height x y Hw Hx Hy Hag) as Hb.
  split; [exact Hb|].
  replace ((width + 7) / 8) with ((width + 7) ÷ 8) by zquot.
  rewrite !packed_bit_dither_image by assumption. exact Hb.
Qed.

Lemma dither_looks_back_only_witness :
  black_at [half; half; half; half] 2 2 1 0 = black_at [half; half; one; zero] 2 2 1 0
  /\ packed_bit (dither_image [half; half; half; half] 2 2) ((2 + 7) / 8) 1 0
     = packed_bit (dither_image [half; half; one; zero] 2 2) ((2 + 7) / 8) 1 0.
Proof.
  apply (dither_looks_back_only [half; half; half; half] [half; half; one; zero] 2 2 1 0);
    [lia | lia | lia |].
  split; [reflexivity|]. intros i Hi.
  assert (Hcases : i = 0 \/ i = 1) by lia.
  destruct Hcases as [-> | ->]; reflexivity.
Defined.

(** X9.  On gray pixels, where the three bytes are equal as they are for
    every pixel of an image with one or two channels, the value handed to
    [std::pow] grows strictly with the sample and stays between 0 and 1,
    so no two gray levels are merged or swapped before the gamma curve. *)
Theorem gray_levels_increasing v v' :
  0 <= v -> v < v' -> v' <= 255 ->
  ltb (gamma_base v v v) (gamma_base v' v' v') = true
  /\ leb zero (gamma_base v v v) = true
  /\ leb (gamma_base v' v' v') one = true.
Proof.
  intros Hv Hlt Hv'. split; [apply gamma_base_gray_increasing; assumption|].
  pose proof (gamma_base_gray_range v ltac:(lia)) as H1.
  pose proof (gamma_base_gray_range v' ltac:(lia)) as H2.
  apply andb_true_iff in H1, H2. tauto.
Qed.

Lemma gray_levels_increasing_witness :
  ltb (gamma_base 14 14 14) (gamma_base 15 15 15) = true
  /\ leb zero (gamma_base 14 14 14) = true
  /\ leb (gamma_base 15 15 15) one = true.
Proof. apply (gray_levels_increasing 14 15); lia. Defined.

Lemma scale_byte_nibbles horizontal vertical :
  0 <= horizontal < 256 -> 0 <= vertical < 256 ->
  u8 (Z.lor (Z.land vertical 0xf) (Z.shiftl (Z.land horizontal 0xf) 4))
  = 16 * (horizontal mod 16) + vertical mod 16.
Proof.
  intros Hh Hv. apply Z.eqb_eq. revert vertical Hv.
  apply (forallb_seqZ
    (fun h => forallb
       (fun v => u8 (Z.lor (Z.land v 0xf) (Z.shiftl (Z.land h 0xf) 4))
                 =? 16 * (h mod 16) + v mod 16) (seqZ 0 256)) 256) in Hh;
    [|vm_compute; reflexivity].
  intros vertical Hv.
  exact (forallb_seqZ _ 256 vertical Hh Hv).
Qed.

(** X10.  [set_text_scale] packs the two factors into one byte, the
    horizontal one in the high four bits and the vertical one in the low
    four, so both can be read back; a factor above 15 loses its high
    bits. *)
Theorem set_text_scale_nibbles horizontal vertical d :
  Printer.link_up d = true ->
  0 <= horizontal < 256 -> 0 <= vertical < 256 ->
  exists scale,
    Printer.set_text_scale horizontal vertical d
    = Some (3, {| Printer.link_up := true;
                  Printer.wire := Printer.wire d ++ [0x1d; 0x21; scale] |})
    /\ scale / 16 = horizontal mod 16
    /\ scale mod 16 = vertical mod 16.
Proof.
  intros Hup Hh Hv. exists (16 * (horizontal mod 16) + vertical mod 16).
  split; [|zquot].
  unfold Printer.set_text_scale. rewrite write_bytes_up by exact Hup.
  rewrite scale_byte_nibbles by assumption. reflexivity.
Qed.

Lemma set_text_scale_nibbles_witness :
  exists scale,
    Printer.set_text_scale 2 3 (Printer.mkDevice true [])
    = Some (3, {| Printer.link_up := true;
                  Printer.wire := [] ++ [0x1d; 0x21; scale] |})
    /\ scale / 16 = 2 mod 16
    /\ scale mod 16 = 3 mod 16.
Proof.
  apply (set_text_scale_nibbles 2 3 (Printer.mkDevice true [])); [reflexivity | lia | lia].
Defined.

(** X11.  [set_horizontal_absolute_print_position] sends the position as
    two bytes, low byte first, from which the position is recovered. *)
Theorem print_position_little_endian pos d :
  Printer.link_up d = true -> 0 <= pos < 65536 ->
  exists lo hi,
    Printer.set_horizontal_absolute_print_position pos d
    = Some (4, {| Printer.link_up := true;
                  Printer.wire := Printer.wire d ++ [0x1b; 0x24; lo; hi] |})
    /\ 0 <= lo < 256 /\ 0 <= hi < 256
    /\ lo + 256 * hi = pos.
Proof.
  intros Hup Hpos. exists (u8 pos), (u8 (Z.shiftr pos 8)).
  split.
  - unfold Printer.set_horizontal_absolute_print_position.
    rewrite write_bytes_up by exact Hup. reflexivity.
  - unfold u8. rewrite Z.shiftr_div_pow2 by lia. change (2 ^ 8) with 256. zquot.
Qed.

Lemma print_position_little_endian_witness :
  exists lo hi,
    Printer.set_horizontal_absolute_print_position 300 (Printer.mkDevice true [])
    = Some (4, {| Printer.link_up := true;
                  Printer.wire := [] ++ [0x1b; 0x24; lo; hi] |})
    /\ 0 <= lo < 256 /\ 0 <= hi < 256
    /\ lo + 256 * hi = 300.
Proof.
  apply (print_position_little_endian 300 (Printer.mkDevice true []));
    [reflexivity | lia].
Defined.

Lemma print_bitmap_up mode width height payload d :
  Printer.link_up d = true ->
  Printer.print_bitmap mode width height payload d
  = Some (u16 (u16 8 + u16 (Z.of_nat (length payload))),
          {| Printer.link_up := true;
             Printer.wire :=
               Printer.wire d
               ++ [0x1d; 0x76; 0x30; Printer.BitmapMode_ordinal mode;
                   Z.land (width ÷ 8) 0x00ff;
                   Z.land (Z.shiftr (width ÷ 8) 8) 0x00ff;
                   Z.land height 0x00ff;
                   Z.land (Z.shiftr height 8) 0x00ff]
               ++ payload |}).
Proof.
  intros Hup. unfold Printer.print_bitmap, Printer.bind, Printer.ret.
  rewrite write_bytes_up by exact Hup. rewrite write_bytes_up by reflexivity.
  cbn [Printer.wire]. rewrite <- app_assoc. reflexivity.
Qed.

(** X12.  Sending a dithered bitmap with [print_bitmap]: the size the
    header announces, bytes in a row times rows, is the size of the
    payload when the width is a multiple of 8 and falls short of it when
    it is not, because the header rounds the row down where
    [dither_image] rounds it up.  The value returned is the number of
    bytes sent modulo 65536. *)
Theorem print_bitmap_announces mode g width height d :
  Printer.link_up d = true ->
  0 <= width < 65536 -> 0 <= height < 65536 ->
  let payload := dither_image g width height in
  exists n w_lo w_hi h_lo h_hi,
    Printer.print_bitmap mode width height payload d
    = Some (n, {| Printer.link_up := true;
                  Printer.wire :=
                    Printer.wire d
                    ++ [0x1d; 0x76; 0x30; Printer.BitmapMode_ordinal mode;
                        w_lo; w_hi; h_lo; h_hi]
                    ++ payload |})
    /\ n = (8 + Z.of_nat (length payload)) mod 65536
    /\ (width mod 8 = 0 ->
        (w_lo + 256 * w_hi) * (h_lo + 256 * h_hi) = Z.of_nat (length payload))
    /\ (width mod 8 <> 0 -> 0 < height ->
        (w_lo + 256 * w_hi) * (h_lo + 256 * h_hi) < Z.of_nat (length payload)).
Proof.
  intros Hup Hw Hh payload.
  exists (u16 (u16 8 + u16 (Z.of_nat (length payload)))),
         (Z.land (width ÷ 8) 0x00ff), (Z.land (Z.shiftr (width ÷ 8) 8) 0x00ff),
         (Z.land height 0x00ff), (Z.land (Z.shiftr height 8) 0x00ff).
  split; [apply print_bitmap_up; exact Hup|].
  split.
  { unfold u16. rewrite <- Z.add_mod by lia. reflexivity. }
  assert (Hlen : Z.of_nat (length payload) = (width + 7) ÷ 8 * height).
  { unfold payload. rewrite length_dither_image. apply Z2Nat.id.
    assert (0 <= (width + 7) ÷ 8) by zquot. nia. }
  assert (Hwb : Z.land (width ÷ 8) 255 + 256 * Z.land (Z.shiftr (width ÷ 8) 8) 255
                = width ÷ 8).
  { change 255 with (Z.ones 8). rewrite !Z.land_ones, Z.shiftr_div_pow2 by lia.
    change (2 ^ 8) with 256. zquot. }
  assert (Hhb : Z.land height 255 + 256 * Z.land (Z.shiftr height 8) 255 = height).
  { change 255 with (Z.ones 8). rewrite !Z.land_ones, Z.shiftr_div_pow2 by lia.
    change (2 ^ 8) with 256. zquot. }
  rewrite Hwb, Hhb, Hlen. split.
  - intros H8. f_equal. zquot.
  - intros H8 Hpos. assert (width ÷ 8 < (width + 7) ÷ 8) by zquot. nia.
Qed.

Lemma print_bitmap_announces_witness :
  exists n w_lo w_hi h_lo h_hi,
    Printer.print_bitmap Printer.NORMAL 16 2 (dither_image (vfill 32 half) 16 2)
      (Printer.mkDevice true [])
    = Some (n, {| Printer.link_up := true;
                  Printer.wire :=
                    []
                    ++ [0x1d; 0x76; 0x30; Printer.BitmapMode_ordinal Printer.NORMAL;
                        w_lo; w_hi; h_lo; h_hi]
                    ++ dither_image (vfill 32 half) 16 2 |})
    /\ n = (8 + Z.of_nat (length (dither_image (vfill 32 half) 16 2))) mod 65536
    /\ (16 mod 8 = 0 ->
        (w_lo + 256 * w_hi) * (h_lo + 256 * h_hi)
        = Z.of_nat (length (dither_image (vfill 32 half) 16 2)))
    /\ (16 mod 8 <> 0 -> 0 < 2 ->
        (w_lo + 256 * w_hi) * (h_lo + 256 * h_hi)
        < Z.of_nat (length (dither_image (vfill 32 half) 16 2))).
Proof.
  apply (print_bitmap_announces Printer.NORMAL (vfill 32 half) 16 2
           (Printer.mkDevice true [])); [reflexivity | lia | lia].
Defined.

(** X13.  Each [enable_] function changes one bit of the format byte and
    no other: the four style functions and [enable_ascii_9x17] set their
    own bit, [enable_ascii_12x24] clears bit 0, and the result is a
    byte. *)
Theorem enable_bits optbit j :
  0 <= j ->
  Z.testbit (Printer.enable_bold optbit) j
    = (j <? 8) && (Z.testbit optbit j || (j =? 3))
  /\ Z.testbit (Printer.enable_double_height optbit) j
    = (j <? 8) && (Z.testbit optbit j || (j =? 4))
  /\ Z.testbit (Printer.enable_double_wide optbit) j
    = (j <? 8) && (Z.testbit optbit j || (j =? 5))
  /\ Z.testbit (Printer.enable_underline optbit) j
    = (j <? 8) && (Z.testbit optbit j || (j =? 7))
  /\ Z.testbit (Printer.enable_ascii_9x17 optbit) j
    = (j <? 8) && (Z.testbit optbit j || (j =? 0))
  /\ Z.testbit (Printer.enable_ascii_12x24 optbit) j
    = (j <? 8) && (Z.testbit optbit j && negb (j =? 0)).
Proof.
  intros Hj.
  unfold Printer.enable_bold, Printer.enable_double_height,
    Printer.enable_double_wide, Printer.enable_underline,
    Printer.enable_ascii_9x17, Printer.enable_ascii_12x24.
  rewrite !testbit_u8, !Z.lor_spec, Z.land_spec by exact Hj.
  pose proof (testbit_mask 0 j ltac:(lia) Hj) as H0. change (2 ^ 0) with 1 in H0.
  pose proof (testbit_mask 3 j ltac:(lia) Hj) as H3. change (2 ^ 3) with 8 in H3.
  pose proof (testbit_mask 4 j ltac:(lia) Hj) as H4. change (2 ^ 4) with 16 in H4.
  pose proof (testbit_mask 5 j ltac:(lia) Hj) as H5. change (2 ^ 5) with 32 in H5.
  pose proof (testbit_mask 7 j ltac:(lia) Hj) as H7. change (2 ^ 7) with 128 in H7.
  rewrite H0, H3, H4, H5, H7.
  repeat split.
  destruct (Z.ltb_spec j 8) as [Hlt|Hge]; [|reflexivity].
  assert (Hcases : j = 0 \/ j = 1 \/ j = 2 \/ j = 3 \/ j = 4 \/ j = 5 \/ j = 6 \/ j = 7)
    by lia.
  destruct Hcases as [-> | [-> | [-> | [-> | [-> | [-> | [-> | ->]]]]]]];
    cbn; rewrite ?andb_true_r, ?andb_false_r; reflexivity.
Qed.

Lemma enable_bits_witness :
  Z.testbit (Printer.enable_bold 0x80) 3 = (3 <? 8) && (Z.testbit 0x80 3 || (3 =? 3)).
Proof. apply (proj1 (enable_bits 0x80 3 ltac:(lia))). Defined.

(** X14.  When the option loop runs to its end, a style is on exactly
    when its option was given, [L] counting for both [w] and [t], and
    the format byte carries it in its bit: 3 for bold, 7 for underline, 5
    for double width, 4 for double height.  No option switches a style
    off. *)
Theorem options_decide_style opts s :
  parse_options opts default_settings = Ready s ->
  (opt_bold s = true <-> given char_b opts)
  /\ (opt_underline s = true <-> given char_u opts)
  /\ (opt_double_width s = true <-> given char_w opts \/ given char_L opts)
  /\ (opt_double_height s = true <-> given char_t opts \/ given char_L opts)
  /\ Z.testbit (settings_format s) 3 = opt_bold s
  /\ Z.testbit (settings_format s) 7 = opt_underline s
  /\ Z.testbit (settings_format s) 5 = opt_double_width s
  /\ Z.testbit (settings_format s) 4 = opt_double_height s.
Proof.
  intros Hp.
  destruct (parse_options_ready opts default_settings s Hp)
    as (Hb & Hu & Hw & Hh & _).
  cbn [default_settings opt_bold opt_underline opt_double_width opt_double_height]
    in Hb, Hu, Hw, Hh.
  destruct (text_format_bits (opt_bold s) (opt_underline s)
              (opt_double_width s) (opt_double_height s)) as (B3 & B7 & B5 & B4).
  unfold settings_format.
  repeat split; try assumption;
    first [ intros H; apply Hb in H | intros H; apply Hu in H
          | intros H; apply Hw in H | intros H; apply Hh in H
          | intros H; apply Hb | intros H; apply Hu
          | intros H; apply Hw | intros H; apply Hh ];
    try tauto; try (destruct H as [H|H]; [discriminate H | exact H]).
Qed.

Lemma options_decide_style_witness :
  (opt_bold {| opt_bold := true; opt_underline := false; opt_double_width := true;
               opt_double_height := true; opt_alignment := Printer.CENTER;
               opt_feed_lines := 2 |} = true
   <-> given char_b [(char_c, None); (char_L, None); (char_b, None)]).
Proof.
  apply (options_decide_style [(char_c, None); (char_L, None); (char_b, None)]).
  reflexivity.
Defined.

(** X15.  When the option loop runs to its end, the alignment is the one
    of the last [l], [c] or [r] given, left when there is none, and the
    feed count is the one of the last [f], 2 when there is none. *)
Theorem options_last_wins opts s :
  parse_options opts default_settings = Ready s ->
  opt_alignment s = default Printer.LEFT (last (omap alignment_of opts))
  /\ opt_feed_lines s = default 2 (last (omap feed_of opts)).
Proof.
  intros Hp.
  destruct (parse_options_ready opts default_settings s Hp)
    as (_ & _ & _ & _ & Ha & Hf & _).
  split; assumption.
Qed.

Lemma options_last_wins_witness :
  opt_alignment {| opt_bold := false; opt_underline := false;
                   opt_double_width := false; opt_double_height := false;
                   opt_alignment := Printer.RIGHT; opt_feed_lines := 7 |}
  = default Printer.LEFT
      (last (omap alignment_of
               [(char_c, None); (char_f, Some 4); (char_r, None); (char_f, Some 7)])).
Proof.
  apply (options_last_wins
           [(char_c, None); (char_f, Some 4); (char_r, None); (char_f, Some 7)]).
  reflexivity.
Defined.

(** X16.  The option loop stops at the first [h], which makes [main]
    return 0, at the first character that is no option, which makes it
    return 1, and at the first [f] whose number [std::stoi] rejects, which
    throws; what follows on the command line has no effect.  It runs to
    its end only if every character is one of the nine others. *)
Theorem options_stop pre opt arg post s s' :
  parse_options pre s = Ready s' ->
  (keeps_going opt = false ->
   parse_options (pre ++ (opt, arg) :: post) s
   = Return (if opt =? char_h then 0 else 1))
  /\ parse_options (pre ++ (char_f, None) :: post) s = Thrown
  /\ forallb keeps_going pre.*1 = true.
Proof.
  intros Hpre. split; [|split].
  - intros Hstop. rewrite parse_options_app, Hpre. simpl.
    rewrite apply_option_stop by exact Hstop. reflexivity.
  - rewrite parse_options_app, Hpre. reflexivity.
  - apply (parse_options_ready pre s s' Hpre).
Qed.

Lemma options_stop_witness :
  parse_options ([(char_b, None)] ++ (char_h, None) :: [(char_c, None)])
    default_settings
  = Return (if char_h =? char_h then 0 else 1).
Proof.
  apply (proj1 (options_stop [(char_b, None)] char_h None [(char_c, None)]
                  default_settings
                  {| opt_bold := true; opt_underline := false;
                     opt_double_width := false; opt_double_height := false;
                     opt_alignment := Printer.LEFT; opt_feed_lines := 2 |}
                  eq_refl)).
  reflexivity.
Defined.

(** X17.  [print_text] sends the input unchanged, closes it with one
    newline if it does not end in one, adds one more newline, then the
    feed command with the count reduced modulo 256 and the reset; an
    empty input still sends the two newlines.  On a device that does not
    answer it throws. *)
Theorem print_text_sends input feed_lines d :
  print_text input feed_lines d
  = if Printer.link_up d
    then Some (tt, {| Printer.link_up := true;
                      Printer.wire :=
                        Printer.wire d ++ text_sent input
                        ++ [0x1b; 0x64; feed_lines mod 256] ++ [0x1b; 0x40] |})
    else None.
Proof.
  unfold print_text. destruct (Printer.link_up d) eqn:Hup.
  - unfold Printer.bind at 1. rewrite print_lines_up by (assumption || lia).
    unfold Printer.bind, Printer.write_string, Printer.feed_lines, Printer.reset,
      Printer.ret.
    rewrite !write_bytes_up by reflexivity. cbn [Printer.wire].
    do 3 f_equal. rewrite <- strip_newline_text_sent, <- !app_assoc. f_equal.
    destruct input as [|c input]; [reflexivity|].
    rewrite <- app_assoc. reflexivity.
  - unfold Printer.bind at 1. destruct input as [|c input].
    + cbn [print_lines length getline]. unfold Printer.ret at 1.
      unfold Printer.bind at 1, Printer.write_string.
      rewrite write_bytes_down by exact Hup. reflexivity.
    + rewrite print_lines_down by (assumption || discriminate). reflexivity.
Qed.

(** X18.  When [open_usb] throws, nothing stays acquired: both pointers
    are null, [libusb_exit] was called once if [libusb_init] had
    succeeded, the device list was freed once if it had been obtained,
    the device was closed once if it had been opened, and a later
    [cleanup] or destructor finds nothing to release. *)
Theorem open_usb_failure_releases usb e p :
  open_usb usb new_port = (Some e, p) ->
  ctx p = false /\ dev_handle p = false
  /\ made LibusbExit p = (if init_ret usb <? 0 then 0%nat else 1%nat)
  /\ made LibusbFreeDeviceList p
     = match e with InitFailed | DeviceListFailed => 0%nat | _ => 1%nat end
  /\ made LibusbClose p
     = match e with DetachFailed | ClaimFailed => 1%nat | _ => 0%nat end
  /\ made LibusbReleaseInterface p = made LibusbClose p
  /\ cleanup p = p.
Proof.
  unfold open_usb, new_port. cbn [calls dev_handle app].
  destruct (init_ret usb <? 0).
  { intros [= <- <-]. repeat split; reflexivity. }
  destruct (device_list usb) as [devices|].
  2: { intros [= <- <-]. repeat split; reflexivity. }
  destruct (find_target devices 0) as [descriptors target] eqn:Hfind.
  destruct (find_target_spec _ _ _ _ Hfind) as [Hlog _].
  destruct target as [i|].
  2: { intros [= <- <-]. repeat split; try reflexivity; count_calls Hlog. }
  destruct (open_ret usb <? 0).
  { intros [= <- <-]. repeat split; try reflexivity; count_calls Hlog. }
  destruct (negb (kernel_driver_active usb =? 0));
    [destruct (negb (detach_ret usb =? 0))|];
    try destruct (claim_ret usb <? 0);
    intros [= <- <-]; repeat split; try reflexivity; count_calls Hlog.
Qed.

Lemma open_usb_failure_releases_witness :
  made LibusbExit (snd (open_usb (mkUsb 0 (Some [(1, 2); (10473, 649)]) 0 1 (-5) 0)
                          new_port)) = 1%nat.
Proof.
  apply (open_usb_failure_releases
           (mkUsb 0 (Some [(1, 2); (10473, 649)]) 0 1 (-5) 0) DetachFailed).
  reflexivity.
Defined.

(** X19.  When [open_usb] returns, the context and the device are held,
    the device opened is the first one in the list with the vendor and
    product looked for, the list was freed once, nothing was closed or
    exited, and claiming the interface was the last call. *)
Theorem open_usb_success usb p :
  open_usb usb new_port = (None, p) ->
  ctx p = true /\ dev_handle p = true
  /\ made LibusbExit p = 0%nat /\ made LibusbClose p = 0%nat
  /\ made LibusbFreeDeviceList p = 1%nat
  /\ last (calls p) = Some LibusbClaimInterface
  /\ exists devices i,
       device_list usb = Some devices
       /\ devices !! i = Some target_ids
       /\ (forall j, (j < i)%nat -> devices !! j <> Some target_ids)
       /\ LibusbOpen i ∈ calls p.
Proof.
  unfold open_usb, new_port. cbn [calls dev_handle app].
  destruct (init_ret usb <? 0); [discriminate|].
  destruct (device_list usb) as [devices|]; [|discriminate].
  destruct (find_target devices 0) as [descriptors target] eqn:Hfind.
  destruct (find_target_spec _ _ _ _ Hfind) as [Hlog Htarget].
  destruct target as [i|]; [|discriminate].
  destruct Htarget as (_ & Hi & Hfirst). rewrite Nat.sub_0_r in Hi, Hfirst.
  destruct (open_ret usb <? 0); [discriminate|].
  destruct (negb (kernel_driver_active usb =? 0));
    [destruct (negb (detach_ret usb =? 0)); [unfold cleanup; discriminate|]|];
    (destruct (claim_ret usb <? 0); [unfold cleanup; discriminate|]);
    intros [= <-];
    (split; [reflexivity|]); (split; [reflexivity|]);
    (split; [count_calls Hlog|]); (split; [count_calls Hlog|]);
    (split; [count_calls Hlog|]);
    (split; [cbn [calls]; rewrite !app_comm_cons; apply last_snoc|]);
    exists devices, i; (split; [reflexivity|]); (split; [exact Hi|]);
    (split; [exact Hfirst|]); cbn [calls];
    repeat first [rewrite elem_of_app | rewrite elem_of_cons]; naive_solver.
Qed.

Lemma open_usb_success_witness :
  ctx (snd (open_usb (mkUsb 0 (Some [(1, 2); (10473, 649)]) 0 0 0 0) new_port)) = true.
Proof.
  apply (open_usb_success (mkUsb 0 (Some [(1, 2); (10473, 649)]) 0 0 0 0)).
  reflexivity.
Defined.

(** X20.  Destroying a [Printer] that was opened releases the interface,
    closes the device and exits libusb, each exactly once, and leaves
    both pointers null; [cleanup] run a second time does nothing, so
    nothing is released twice. *)
Theorem open_then_cleanup usb p q :
  open_usb usb new_port = (None, p) ->
  ctx (cleanup p) = false /\ dev_handle (cleanup p) = false
  /\ made LibusbReleaseInterface (cleanup p) = 1%nat
  /\ made LibusbClose (cleanup p) = 1%nat
  /\ made LibusbExit (cleanup p) = 1%nat
  /\ made LibusbFreeDeviceList (cleanup p) = 1%nat
  /\ cleanup (cleanup q) = cleanup q.
Proof.
  intros Hopen.
  assert (Hidem : cleanup (cleanup q) = cleanup q).
  { apply cleanup_nothing_held; apply cleanup_null. }
  revert Hopen. unfold open_usb, new_port. cbn [calls dev_handle app].
  destruct (init_ret usb <? 0); [discriminate|].
  destruct (device_list usb) as [devices|]; [|discriminate].
  destruct (find_target devices 0) as [descriptors target] eqn:Hfind.
  destruct (find_target_spec _ _ _ _ Hfind) as [Hlog _].
  destruct target as [i|]; [|discriminate].
  destruct (open_ret usb <? 0); [discriminate|].
  destruct (negb (kernel_driver_active usb =? 0));
    [destruct (negb (detach_ret usb =? 0)); [unfold cleanup; discriminate|]|];
    (destruct (claim_ret usb <? 0); [unfold cleanup; discriminate|]);
    intros [= <-];
    (split; [reflexivity|]); (split; [reflexivity|]);
    (split; [count_calls Hlog|]); (split; [count_calls Hlog|]);
    (split; [count_calls Hlog|]); (split; [count_calls Hlog|]);
    exact Hidem.
Qed.

Lemma open_then_cleanup_witness :
  made LibusbClose
    (cleanup (snd (open_usb (mkUsb 0 (Some [(10473, 649)]) 0 1 0 0) new_port)))
  = 1%nat.
Proof.
  apply (open_then_cleanup (mkUsb 0 (Some [(10473, 649)]) 0 1 0 0) _ new_port).
  reflexivity.
Defined.
